(** * StreamGrab: the download orchestration core, embedded and verified

    The development follows the two Python modules of the project:
    [home/views.py] (platform classifier, filename cleaner, streaming file
    server) and [home/youtube_downloader.py] (URL check, metadata resolver,
    quality resolver, fetch and merge orchestrator).

    Conventions of the embedding.
    - A Python [str] is a Rocq [string]; a character is its code point, so
      the code points U+0000..U+00FF are represented and the characters of
      code 128 and above are the non-ASCII ones.
    - A Python [dict] used as a map is a [gmap]; a dict with a fixed set of
      keys is a record; a key that may be absent or hold [None] is a
      [pyfield].
    - A function that may raise returns an [outcome]; a function that calls
      an external service threads the state of the world explicitly. *)

From Stdlib Require Import ZArith QArith Ascii.
From stdpp Require Import base option gmap strings list.

Open Scope string_scope.
Open Scope Z_scope.

(** ** Python values *)

(** The value stored under a key of a dict coming from the outside:
    the key is missing, it holds [None], or it holds a value. *)
Inductive pyfield (A : Type) : Type :=
  | Absent
  | Null
  | Val (a : A).
Arguments Absent {A}.
Arguments Null {A}.
Arguments Val {A} a.

(** [d.get(key, default)]: [None] is Python's [None]. *)
Definition dict_get {A : Type} (f : pyfield A) (default : A) : option A :=
  match f with
  | Absent => Some default
  | Null => None
  | Val a => Some a
  end.

(** [d.get(key)], whose default is [None]. *)
Definition dict_get_none {A : Type} (f : pyfield A) : option A :=
  match f with
  | Val a => Some a
  | Absent | Null => None
  end.

(** The exceptions the modelled code can meet. *)
Inductive exn : Type :=
  | TypeError
  | OSError
  | Exception (msg : string).

Inductive outcome (A : Type) : Type :=
  | Return (a : A)
  | Raise (e : exn).
Arguments Return {A} a.
Arguments Raise {A} e.

Definition bind {A B : Type} (x : outcome A) (k : A → outcome B)
  : outcome B :=
  match x with
  | Return a => k a
  | Raise e => Raise e
  end.

Notation "'do' x <- e ; k" := (bind e (fun x => k))
  (at level 10, x name, e at level 100, k at level 200).

(** [bytes] *)
Abbreviation bytes := (list Byte.byte).

(** The dict [YouTubeDownloader.download_video] returns: its status is
    "success" or "error"; the key [temp_files] is there ([Some]) or not. *)
Inductive DownloadResult : Type :=
  | Success (file_path filename : string) (temp_files : option (list string))
  | Failure (message : string).

(** ** Text: the [str] methods the code uses *)

Module Text.

(** [s.startswith(p)] *)
Fixpoint startswith (p s : string) : bool :=
  match p, s with
  | EmptyString, _ => true
  | String a p', String b s' => Ascii.eqb a b && startswith p' s'
  | String _ _, EmptyString => false
  end.

(** [p in s] *)
Fixpoint contains (p s : string) : bool :=
  startswith p s
  || match s with
     | EmptyString => false
     | String _ s' => contains p s'
     end.

(** [s.endswith(p)] *)
Fixpoint endswith (p s : string) : bool :=
  String.eqb p s
  || match s with
     | EmptyString => false
     | String _ s' => endswith p s'
     end.

Definition map_chars (f : ascii → ascii) : string → string :=
  fix go s :=
    match s with
    | EmptyString => EmptyString
    | String c s' => String (f c) (go s')
    end.

Definition filter_chars (keep : ascii → bool) : string → string :=
  fix go s :=
    match s with
    | EmptyString => EmptyString
    | String c s' => if keep c then String c (go s') else go s'
    end.

Definition all_chars (p : ascii → bool) : string → bool :=
  fix go s :=
    match s with
    | EmptyString => true
    | String c s' => p c && go s'
    end.

(** [c.lower()] on U+0000..U+00FF: the letters A-Z, and the Latin-1
    capitals U+00C0..U+00DE without the multiplication sign U+00D7,
    move 32 places up; every other character stays. *)
Definition lower_char (c : ascii) : ascii :=
  let n := nat_of_ascii c in
  if ((65 <=? n) && (n <=? 90))%nat
     || ((192 <=? n) && (n <=? 222) && negb (n =? 215))%nat
  then ascii_of_nat (n + 32)
  else c.

(** [s.lower()] *)
Definition lower : string → string := map_chars lower_char.

(** [c.isspace()] on U+0000..U+00FF: tab, line feed, vertical tab, form
    feed, carriage return, the four separators U+001C..U+001F, space,
    next line U+0085 and no-break space U+00A0. *)
Definition isspace (c : ascii) : bool :=
  let n := nat_of_ascii c in
  (((9 <=? n) && (n <=? 13)) || ((28 <=? n) && (n <=? 32))
   || (n =? 133) || (n =? 160))%nat.

Fixpoint lstrip (s : string) : string :=
  match s with
  | EmptyString => EmptyString
  | String c s' => if isspace c then lstrip s' else s
  end.

(** Removes the white space at the end: a character goes when it is
    white space and all that follows it went. *)
Fixpoint rstrip (s : string) : string :=
  match s with
  | EmptyString => EmptyString
  | String c s' =>
      match rstrip s' with
      | EmptyString => if isspace c then EmptyString else String c EmptyString
      | r => String c r
      end
  end.

(** [s.strip()] *)
Definition strip (s : string) : string := rstrip (lstrip s).

Definition is_ascii_char (c : ascii) : bool := (nat_of_ascii c <? 128)%nat.

(** [s.encode("ascii", errors="ignore").decode()] *)
Definition ascii_ignore : string → string := filter_chars is_ascii_char.

(** [s.isascii()] *)
Definition isascii : string → bool := all_chars is_ascii_char.

End Text.

(** ** Regular expressions: the fragment of [re] the code uses *)

Module Re.

Inductive regex : Type :=
  | Void
  | Eps
  | Chr (c : ascii)
  | Dot                     (* [.]: any character but the line feed *)
  | Cat (r1 r2 : regex)
  | Alt (r1 r2 : regex)
  | Star (r : regex).

(** [r?] *)
Definition Opt (r : regex) : regex := Alt r Eps.
(** [r+] *)
Definition Plus (r : regex) : regex := Cat r (Star r).
(** a literal string *)
Fixpoint Lit (s : string) : regex :=
  match s with
  | EmptyString => Eps
  | String c s' => Cat (Chr c) (Lit s')
  end.

Definition line_feed : ascii := ascii_of_nat 10.

Fixpoint nullable (r : regex) : bool :=
  match r with
  | Void | Chr _ | Dot => false
  | Eps | Star _ => true
  | Cat r1 r2 => nullable r1 && nullable r2
  | Alt r1 r2 => nullable r1 || nullable r2
  end.

(** The derivative of [r] by the character [a]. *)
Fixpoint deriv (a : ascii) (r : regex) : regex :=
  match r with
  | Void | Eps => Void
  | Chr c => if Ascii.eqb a c then Eps else Void
  | Dot => if Ascii.eqb a line_feed then Void else Eps
  | Cat r1 r2 =>
      if nullable r1
      then Alt (Cat (deriv a r1) r2) (deriv a r2)
      else Cat (deriv a r1) r2
  | Alt r1 r2 => Alt (deriv a r1) (deriv a r2)
  | Star r1 => Cat (deriv a r1) (Star r1)
  end.

(** [re.match(r, s) is not None]: some prefix of [s] is a word of [r]. *)
Fixpoint re_match (r : regex) (s : string) : bool :=
  nullable r
  || match s with
     | EmptyString => false
     | String c s' => re_match (deriv c r) s'
     end.

(** The words of a regular expression. *)
Inductive lang : regex → string → Prop :=
  | lang_eps : lang Eps EmptyString
  | lang_chr c : lang (Chr c) (String c EmptyString)
  | lang_dot c : c ≠ line_feed → lang Dot (String c EmptyString)
  | lang_cat r1 r2 u v : lang r1 u → lang r2 v → lang (Cat r1 r2) (u +:+ v)
  | lang_alt_l r1 r2 u : lang r1 u → lang (Alt r1 r2) u
  | lang_alt_r r1 r2 u : lang r2 u → lang (Alt r1 r2) u
  | lang_star_nil r : lang (Star r) EmptyString
  | lang_star_cons r c u v :
      lang r (String c u) → lang (Star r) v → lang (Star r) (String c u +:+ v).

End Re.

(** ** [home/views.py]: the platform classifier *)

Module Views.

Import Text.

Inductive platform : Type :=
  | youtube_shorts
  | youtube
  | facebook
  | instagram
  | tiktok
  | unknown.

Definition get_platform (url : string) : platform :=
  if contains "youtube.com/shorts/" url then youtube_shorts
  else if contains "youtube.com" url || contains "youtu.be" url then youtube
  else if contains "facebook.com" url || contains "fb.watch" url then facebook
  else if contains "instagram.com" url then instagram
  else if contains "tiktok.com" url then tiktok
  else unknown.

(** The substrings the classifier looks for. *)
Definition platform_patterns : list string :=
  [ "youtube.com/shorts/"; "youtube.com"; "youtu.be"; "facebook.com";
    "fb.watch"; "instagram.com"; "tiktok.com" ].

(** *** The filename cleaner *)

(** The character class of the pattern of both [sanitize_filename] and
    [clean_filename]: backslash, slash, asterisk, question mark, colon,
    double quote, angle brackets and pipe. *)
Definition illegal_char (c : ascii) : bool :=
  bool_decide (nat_of_ascii c ∈ [92; 47; 42; 63; 58; 34; 60; 62; 124]%nat).

Definition underscore : ascii := "_"%char.

(** [re.sub(pattern, "_", name)] *)
Definition replace_illegal : string → string :=
  map_chars (fun c => if illegal_char c then underscore else c).

Definition sanitize_filename (name : string) : string := replace_illegal name.

(** One element of the list [email.header.decode_header] returns: the
    text is a [str] or a [bytes], the charset a [str] or [None]. *)
Inductive header_text : Type :=
  | Str (s : string)
  | Bytes (b : bytes).

(** The decoders [clean_filename] takes from the standard library.  They
    are outside the project, so the cleaner is read for every behaviour
    they may have; each may raise. *)
Class Codecs : Type := {
  (** [email.header.decode_header(header)] *)
  decode_header : string → outcome (list (header_text * option string));
  (** [b.decode(encoding, errors="ignore")] *)
  bytes_decode : bytes → string → outcome string;
  (** [quopri.decodestring(b)] *)
  quopri_decodestring : bytes → outcome bytes;
  (** [base64.b64decode(s)] *)
  b64decode : string → outcome bytes;
}.

Definition q_prefix : string := "=_utf-8_q_".
Definition b_prefix : string := "=_utf-8_b_".
Definition mp4 : string := ".mp4".

(** [s[n:]] *)
Fixpoint slice_from (n : nat) (s : string) : string :=
  match n, s with
  | O, _ => s
  | S n', String _ s' => slice_from n' s'
  | S _, EmptyString => EmptyString
  end.

(** [s[:-2]] *)
Definition slice_to_minus2 (s : string) : string :=
  String.substring 0 (String.length s - 2) s.

Section Cleaner.
Context `{Codecs}.

(** The body of the loop over the decoded parts. *)
Definition decode_part (text : header_text) (enc : option string)
  : outcome string :=
  match text with
  | Bytes b =>
      match enc with
      | Some (String c e) => bytes_decode b (String c e)
      | Some EmptyString | None =>
          do b' <- quopri_decodestring b; bytes_decode b' "utf-8"
      end
  | Str s => Return s
  end.

Fixpoint decode_parts (parts : list (header_text * option string))
  (decoded_filename : string) : outcome string :=
  match parts with
  | [] => Return decoded_filename
  | (text, enc) :: rest =>
      do s <- decode_part text enc;
      decode_parts rest (decoded_filename +:+ s)
  end.

(** The body of the [try]. *)
Definition decode_filename (filename : string) : outcome string :=
  if startswith q_prefix (lower filename) then
    do decoded_parts <- decode_header filename;
    decode_parts decoded_parts ""
  else if startswith b_prefix (lower filename) then
    let b64_part := slice_from (String.length b_prefix) filename in
    let b64_part :=
      if endswith "=_" b64_part then slice_to_minus2 b64_part
      else b64_part in
    do decoded_bytes <- b64decode b64_part;
    bytes_decode decoded_bytes "utf-8"
  else Return filename.

(** The value of [filename] when the test of the extension is
    reached. *)
Definition cleaned_name (filename : string) (ascii_only : bool) : string :=
  let filename :=
    match decode_filename filename with
    | Return f => f
    | Raise _ => "video"
    end in
  let filename := replace_illegal filename in
  let filename := if ascii_only then ascii_ignore filename else filename in
  strip filename.

Definition clean_filename (filename : string) (ascii_only : bool) : string :=
  let filename := cleaned_name filename ascii_only in
  if endswith mp4 (lower filename) then filename else filename +:+ mp4.

End Cleaner.

(** An environment in which no decoder is available: each raises. *)
Definition no_codecs : Codecs := {|
  decode_header _ := Raise (Exception "decode_header");
  bytes_decode _ _ := Raise (Exception "decode");
  quopri_decodestring _ := Raise (Exception "decodestring");
  b64decode _ := Raise (Exception "b64decode");
|}.

(** An environment whose header decoder finds no encoded word and gives
    the header back as it is, which is what [decode_header] does with a
    header that holds no [=?]; the other decoders raise. *)
Definition literal_header_codecs : Codecs := {|
  decode_header h := Return [(Str h, None)];
  bytes_decode _ _ := Raise (Exception "decode");
  quopri_decodestring _ := Raise (Exception "decodestring");
  b64decode _ := Raise (Exception "b64decode");
|}.

(** An already sanitized name, in the words of the specification: pure
    ASCII, ending with ".mp4", without any illegal character. *)
Definition already_sanitized (s : string) : bool :=
  isascii s && endswith mp4 s && all_chars (fun c => negb (illegal_char c)) s.

(** *** The streaming file server *)

(** The files of the download directory: the content of each path that
    exists, and the paths the process is not allowed to remove. *)
Record filesystem : Type := {
  files : gmap string bytes;
  locked : gset string;
}.

(** [os.path.exists(path)] *)
Definition os_path_exists (path : string) (fs : filesystem) : bool :=
  bool_decide (is_Some (files fs !! path)).

(** [os.remove(path)]: [FileNotFoundError] and [PermissionError] are
    both [OSError]s; a failed removal changes nothing. *)
Definition os_remove (path : string) (fs : filesystem)
  : filesystem * outcome unit :=
  match files fs !! path with
  | None => (fs, Raise OSError)
  | Some _ =>
      if bool_decide (path ∈ locked fs) then (fs, Raise OSError)
      else ({| files := delete path (files fs); locked := locked fs |},
            Return ())
  end.

(** The loop over [temp_files], left at the first removal that raises. *)
Fixpoint remove_temp_files (temp_files : list string) (fs : filesystem)
  : filesystem * outcome unit :=
  match temp_files with
  | [] => (fs, Return ())
  | temp_file :: rest =>
      if os_path_exists temp_file fs then
        match os_remove temp_file fs with
        | (fs', Return _) => remove_temp_files rest fs'
        | (fs', Raise e) => (fs', Raise e)
        end
      else remove_temp_files rest fs
  end.

(** The body of the [try] of the cleanup. [temp_files] is [None] when
    [serve_file] got none. *)
Definition cleanup_body (path : string) (temp_files : option (list string))
  (fs : filesystem) : filesystem * outcome unit :=
  match os_remove path fs with
  | (fs', Return _) =>
      match temp_files with
      | Some (t :: ts) => remove_temp_files (t :: ts) fs'
      | Some [] | None => (fs', Return ())
      end
  | (fs', Raise e) => (fs', Raise e)
  end.

(** [try: ... except OSError: pass] *)
Definition cleanup (path : string) (temp_files : option (list string))
  (fs : filesystem) : filesystem * outcome unit :=
  match cleanup_body path temp_files fs with
  | (fs', Raise OSError) => (fs', Return ())
  | r => r
  end.

(** [chunk_size=8192] *)
Definition default_chunk_size : nat := Z.to_nat 8192.

(** The chunks [f.read(chunk_size)] returns until it returns the empty
    one; [fuel] bounds the number of reads. *)
Fixpoint read_chunks (fuel : nat) (chunk_size : nat) (data : bytes)
  : list bytes :=
  match fuel with
  | O => []
  | S fuel' =>
      match take chunk_size data with
      | [] => []
      | chunk => chunk :: read_chunks fuel' chunk_size (drop chunk_size data)
      end
  end.

(** [file_iterator], run until it is exhausted: the chunks it yielded and
    the files that are left. Opening a missing file raises. [temp_files]
    is the variable of the enclosing [serve_file]. *)
Definition file_iterator (temp_files : option (list string)) (path : string)
  (chunk_size : nat) (fs : filesystem) : filesystem * outcome (list bytes) :=
  match files fs !! path with
  | None => (fs, Raise OSError)
  | Some data =>
      let chunks := read_chunks (S (length data)) chunk_size data in
      match cleanup path temp_files fs with
      | (fs', Return _) => (fs', Return chunks)
      | (fs', Raise e) => (fs', Raise e)
      end
  end.

(** *** What [download_video] does with the result of the downloader *)

Inductive response : Type :=
  | ServeFile (file_path filename : string) (temp_files : list string)
  | JsonError (error : string) (status : Z).

(** [result.get('temp_files', [])] *)
Definition get_temp_files (result : DownloadResult) : list string :=
  match result with
  | Success _ _ (Some l) => l
  | Success _ _ None | Failure _ => []
  end.

Definition respond (result : DownloadResult) : response :=
  match result with
  | Success file_path filename _ =>
      ServeFile file_path filename (get_temp_files result)
  | Failure message => JsonError message 400
  end.

(** *** The served response *)

(** The bytes [urllib.parse.quote] never quotes: letters, digits and
    the four marks [_.-~]. *)
Definition always_safe (c : ascii) : bool :=
  let n := nat_of_ascii c in
  (((65 <=? n) && (n <=? 90)) || ((97 <=? n) && (n <=? 122))
   || ((48 <=? n) && (n <=? 57))
   || (n =? 95) || (n =? 46) || (n =? 45) || (n =? 126))%nat.

Definition hex_digit (n : nat) : ascii :=
  default "0"%char (String.get n "0123456789ABCDEF").

(** ['%{:02X}'.format(b)] *)
Definition percent (b : nat) : string :=
  String "%" (String (hex_digit (b / 16)) (String (hex_digit (b mod 16)) "")).

(** The UTF-8 bytes of a character of U+0000..U+00FF. *)
Definition utf8 (c : ascii) : list nat :=
  let n := nat_of_ascii c in
  if (n <? 128)%nat then [n] else [192 + n / 64; 128 + n mod 64]%nat.

Definition slash : ascii := "/"%char.

Definition quote_char (c : ascii) : string :=
  if always_safe c || Ascii.eqb c slash then String c ""
  else String.concat "" (percent <$> utf8 c).

(** [quote(s)], with its default [safe='/']. *)
Fixpoint quote (s : string) : string :=
  match s with
  | EmptyString => EmptyString
  | String c s' => quote_char c +:+ quote s'
  end.

(** The response of [serve_file]: its headers, and its body as what the
    generator does when the response is streamed, at that time. *)
Record StreamingHttpResponse : Type := {
  content_type : string;
  content_disposition : string;
  content_length : nat;
  x_filename : string;
  streaming_content : filesystem → filesystem * outcome (list bytes);
}.

(** [os.path.getsize(path)] *)
Definition os_path_getsize (path : string) (fs : filesystem) : outcome nat :=
  match files fs !! path with
  | Some data => Return (length data)
  | None => Raise OSError
  end.

Definition carriage_return : ascii := ascii_of_nat 13.

(** A text without line feed and without carriage return. *)
Definition newline_free (s : string) : bool :=
  all_chars
    (fun c => negb (Ascii.eqb c Re.line_feed || Ascii.eqb c carriage_return)) s.

(** What the response does with a value when a header is set, as in
    [response[name] = value]: a value that holds a line feed or a carriage
    return raises [BadHeaderError]; any other value of U+0000..U+00FF is
    stored as it is. *)
Definition header_value (value : string) : outcome string :=
  if newline_free value then Return value
  else Raise (Exception "BadHeaderError").

(** [mime_type or 'video/mp4'] *)
Definition content_type_of (mime_type : option string) : string :=
  match mime_type with
  | Some (String c t) => String c t
  | Some EmptyString | None => "video/mp4"
  end.

Section Server.
Context `{Codecs}.
(** [mimetypes.guess_type(path)[0]], a table of the standard library. *)
Variable guess_type : string → option string.

(** The headers are set in the order of the source: the content type by
    the constructor of the response, then Content-Disposition,
    Content-Length, which is a number, and X-Filename. *)
Definition serve_file (file_path filename : string)
  (temp_files : option (list string)) (ascii_safe : bool) (fs : filesystem)
  : outcome StreamingHttpResponse :=
  let filename := clean_filename filename ascii_safe in
  do file_size <- os_path_getsize file_path fs;
  let mime_type := guess_type file_path in
  do content_type_header <- header_value (content_type_of mime_type);
  let quoted_filename := quote filename in
  do disposition_header <-
    header_value ("attachment; filename*=UTF-8''" +:+ quoted_filename);
  do filename_header <- header_value filename;
  Return {|
    content_type := content_type_header;
    content_disposition := disposition_header;
    content_length := file_size;
    x_filename := filename_header;
    streaming_content := file_iterator temp_files file_path default_chunk_size;
  |}.

End Server.

End Views.

(** ** [home/youtube_downloader.py] *)

Module Downloader.

Import Text Re.

(** *** The URL check *)

(** [(https?://)?(www\.)?(youtube|youtu)\.(com|be)/.+] *)
Definition youtube_regex : regex :=
  Cat (Opt (Cat (Lit "http") (Cat (Opt (Chr "s")) (Lit "://"))))
 (Cat (Opt (Cat (Lit "www") (Chr ".")))
 (Cat (Alt (Lit "youtube") (Lit "youtu"))
 (Cat (Chr ".")
 (Cat (Alt (Lit "com") (Lit "be"))
 (Cat (Chr "/")
      (Plus Dot)))))).

Definition is_youtube_url (url : string) : bool :=
  re_match youtube_regex url.

(** The URLs the pattern accepts, spelled out: an optional scheme, an
    optional "www.", one of two names, a dot, one of two endings, a slash,
    and at least one character that is not a line feed. *)
Definition youtube_shape (url : string) : Prop :=
  ∃ scheme www name tld c rest,
    scheme ∈ [""; "http://"; "https://"]
    ∧ www ∈ [""; "www."]
    ∧ name ∈ ["youtube"; "youtu"]
    ∧ tld ∈ ["com"; "be"]
    ∧ c ≠ line_feed
    ∧ url = scheme +:+ www +:+ name +:+ "." +:+ tld +:+ "/" +:+ String c rest.

(** *** File names *)

(** The character class of the pattern of [sanitize_filename]: angle
    brackets, colon, double quote, slash, backslash, pipe, question mark
    and asterisk. *)
Definition invalid_char (c : ascii) : bool :=
  bool_decide (nat_of_ascii c ∈ [60; 62; 58; 34; 47; 92; 124; 63; 42]%nat).

(** [re.sub(pattern, '', filename).strip()] *)
Definition sanitize_filename (filename : string) : string :=
  strip (filter_chars (fun c => negb (invalid_char c)) filename).

Definition download_folder : string := "downloads".

(** [str(self.download_folder / name)] *)
Definition in_download_folder (name : string) : string :=
  download_folder +:+ "/" +:+ name.

(** *** What the extraction engine returns *)

(** One entry of [info['formats']]. *)
Record format : Type := {
  format_id : string;
  format_note : pyfield string;
  height : pyfield Z;
  acodec : pyfield string;
  abr : pyfield Q;
}.

(** The dict [extract_info] returns; [formats] is [[]] when the key is
    missing. *)
Record info : Type := {
  title : pyfield string;
  duration : pyfield Z;
  thumbnail : pyfield string;
  uploader : pyfield string;
  view_count : pyfield Z;
  formats : list format;
}.

Inductive extract_result : Type :=
  | ExtractRaises (msg : string)
  | ExtractNone
  | ExtractInfo (i : info).

(** *** The quality map *)

Inductive kind : Type :=
  | progressive
  | video.

(** A value of [available_qualities]: the dict with the keys [id] and
    [type]. *)
Record FormatRef : Type := {
  ref_id : string;
  ref_type : kind;
}.

Record video_info : Type := {
  vi_title : option string;
  vi_duration : option Z;
  vi_thumbnail : option string;
  vi_uploader : option string;
  vi_view_count : option Z;
  vi_platform : string;
}.

(** The label the chain of [if]/[elif] gives to a height, if any. *)
Definition height_label (height : option Z) : option string :=
  if decide (height = Some 2160) then Some "2160p"
  else if decide (height = Some 1440) then Some "1440p"
  else if decide (height = Some 1080) then Some "1080p"
  else if decide (height = Some 720) then Some "720p"
  else if decide (height = Some 480) then Some "480p"
  else if decide (height = Some 360) then Some "360p"
  else None.

(** The heights that have a label, as the specification lists them. *)
Definition canonical_heights : list (Z * string) :=
  [ (2160, "2160p"); (1440, "1440p"); (1080, "1080p");
    (720, "720p"); (480, "480p"); (360, "360p") ].

(** The value of [resolution] when the [if resolution:] is reached:
    the note of the format, replaced by the label of its height when the
    height has one. *)
Definition resolution_of (f : format) : option string :=
  let resolution := dict_get (format_note f) "" in
  let height := dict_get (height f) 0 in
  match height_label height with
  | Some label => Some label
  | None => resolution
  end.

(** The labels a format may enter the map under, in the words of the
    amended specification: the label of its height when the height is
    exactly one of the six, and otherwise its own note when that is a
    string that is not empty. *)
Definition labelled (f : format) (label : string) : Prop :=
  (∃ h, height f = Val h ∧ (h, label) ∈ canonical_heights)
  ∨ ((∀ h, height f = Val h → h ∉ canonical_heights.*1)
     ∧ format_note f = Val label ∧ label ≠ "").

(** The body of the loop over the formats. A [None] under [acodec]
    makes the [in] raise. *)
Definition add_format (available_qualities : gmap string FormatRef)
  (f : format) : outcome (gmap string FormatRef) :=
  match resolution_of f with
  | Some (String c r) =>
      let resolution := String c r in
      match dict_get (acodec f) "none" with
      | None => Raise TypeError
      | Some codec =>
          if contains "audio" codec then
            Return (<[resolution :=
               {| ref_id := format_id f; ref_type := progressive |}]>
               available_qualities)
          else
            Return (<[resolution :=
               {| ref_id := format_id f; ref_type := video |}]>
               available_qualities)
      end
  | Some EmptyString | None => Return available_qualities
  end.

Fixpoint add_formats (fs : list format)
  (available_qualities : gmap string FormatRef)
  : outcome (gmap string FormatRef) :=
  match fs with
  | [] => Return available_qualities
  | f :: rest =>
      do available_qualities <- add_format available_qualities f;
      add_formats rest available_qualities
  end.

Definition make_video_info (i : info) : video_info := {|
  vi_title := dict_get (title i) "Unknown Title";
  vi_duration := dict_get (duration i) 0;
  vi_thumbnail := dict_get (thumbnail i) "";
  vi_uploader := dict_get (uploader i) "Unknown";
  vi_view_count := dict_get (view_count i) 0;
  vi_platform := "youtube";
|}.

(** *** The quality resolver *)

Definition quality_preference : list string :=
  ["2160p"; "1440p"; "1080p"; "720p"; "480p"; "360p"; "240p"; "144p"].

(** [key in available_formats] *)
Definition has_key (key : string) (available_formats : gmap string FormatRef)
  : bool :=
  bool_decide (is_Some (available_formats !! key)).

(** The first [for]: it returns at the first quality present when [best]
    was asked, and passes over everything otherwise. *)
Fixpoint closest_loop (qualities : list string) (requested_quality : string)
  (available_formats : gmap string FormatRef) : option string :=
  match qualities with
  | [] => None
  | quality :: rest =>
      if has_key quality available_formats then
        if String.eqb requested_quality "best" then Some quality
        else closest_loop rest requested_quality available_formats
      else closest_loop rest requested_quality available_formats
  end.

(** The second [for], over the reversed list. *)
Fixpoint worst_loop (qualities : list string)
  (available_formats : gmap string FormatRef) : option string :=
  match qualities with
  | [] => None
  | quality :: rest =>
      if has_key quality available_formats then Some quality
      else worst_loop rest available_formats
  end.

Definition _find_best_quality_match (requested_quality : string)
  (available_formats : gmap string FormatRef) : option string :=
  if has_key requested_quality available_formats then Some requested_quality
  else
    match closest_loop quality_preference requested_quality
            available_formats with
    | Some quality => Some quality
    | None =>
        if String.eqb requested_quality "worst" then
          worst_loop (reverse quality_preference) available_formats
        else None
    end.

(** The resolver as the specification words it: the exact key, else for
    [best] the first key of the list that is present, else for [worst]
    the first one from the bottom, else nothing. *)
Definition quality_match_spec (requested : string)
  (available : gmap string FormatRef) : option string :=
  if has_key requested available then Some requested
  else if String.eqb requested "best" then
    List.find (fun q => has_key q available) quality_preference
  else if String.eqb requested "worst" then
    List.find (fun q => has_key q available) (reverse quality_preference)
  else None.

(** *** The outside world *)

(** The external services, as functions of the state of the world.
    [ydl_download format outtmpl url] and [ffmpeg_merge video_file
    audio_file output_file] return [Some msg] when the call raises an
    exception whose text is [msg]. *)
Class Engine (World : Type) : Type := {
  extract_info : string → World → extract_result * World;
  ydl_download : string → string → string → World → option string * World;
  ffmpeg_merge : string → string → string → World → option string * World;
}.

(** The calls made to the services, oldest first. *)
Inductive call : Type :=
  | CallExtract (url : string)
  | CallDownload (format outtmpl url : string)
  | CallMerge (video_file audio_file output_file : string).

Record state (World : Type) : Type := {
  world : World;
  calls : list call;
}.
Arguments world {World} s.
Arguments calls {World} s.

Section Orchestrator.
Context {World : Type} `{Engine World}.

Definition M (A : Type) : Type := state World → A * state World.

Definition ret {A : Type} (a : A) : M A := fun st => (a, st).

Definition mbind {A B : Type} (m : M A) (k : A → M B) : M B :=
  fun st => let (a, st') := m st in k a st'.

Definition perform {A : Type} (c : call) (f : World → A * World) : M A :=
  fun st =>
    let (a, w) := f (world st) in
    (a, {| world := w; calls := calls st ++ [c] |}).

Local Notation "'let*' x ':=' m 'in' k" := (mbind m (fun x => k))
  (at level 10, x name, m at level 100, k at level 200).

(** *** The metadata resolver *)

Definition get_video_info (video_url : string)
  : M (option (video_info * gmap string FormatRef * info)) :=
  let* r := perform (CallExtract video_url) (extract_info video_url) in
  match r with
  | ExtractRaises _ | ExtractNone => ret None
  | ExtractInfo i =>
      match add_formats (formats i) ∅ with
      | Return available_qualities =>
          ret (Some (make_video_info i, available_qualities, i))
      | Raise _ => ret None
      end
  end.

(** *** The fetch and merge orchestrator *)

Definition _download_progressive (video_url : string)
  (format_info : FormatRef) (video_title : string) : M DownloadResult :=
  let output_file := in_download_folder (video_title +:+ ".mp4") in
  let* e := perform (CallDownload (ref_id format_info) output_file video_url)
        (ydl_download (ref_id format_info) output_file video_url) in
  match e with
  | None => ret (Success output_file (video_title +:+ ".mp4") None)
  | Some msg => ret (Failure msg)
  end.

(** The filter of the candidates of [best_audio]. *)
Definition audio_candidate (f : format) : bool :=
  negb (bool_decide (dict_get_none (acodec f) = Some "none"))
  && bool_decide (is_Some (dict_get_none (abr f))).

(** [f['abr']] of a candidate. *)
Definition abr_key (f : format) : Q :=
  match abr f with
  | Val q => q
  | Absent | Null => 0%Q
  end.

(** [max(candidates, key=..., default=None)]: the first candidate of
    greatest key. *)
Fixpoint max_from (best : format) (candidates : list format) : format :=
  match candidates with
  | [] => best
  | f :: rest =>
      if Qle_bool (abr_key f) (abr_key best) then max_from best rest
      else max_from f rest
  end.

Definition best_audio_of (fs : list format) : option format :=
  match List.filter audio_candidate fs with
  | [] => None
  | f :: rest => Some (max_from f rest)
  end.

Definition _download_and_merge (video_url : string)
  (format_info : FormatRef) (video_title : string) (full_info : info)
  : M DownloadResult :=
  let video_file := in_download_folder (video_title +:+ "_video.mp4") in
  let audio_file := in_download_folder (video_title +:+ "_audio.mp4") in
  let output_file := in_download_folder (video_title +:+ ".mp4") in
  match best_audio_of (formats full_info) with
  | None => ret (Failure "No valid audio formats found!")
  | Some best_audio =>
      let audio_id := format_id best_audio in
      let* e := perform (CallDownload (ref_id format_info) video_file video_url)
            (ydl_download (ref_id format_info) video_file video_url) in
      match e with
      | Some msg => ret (Failure msg)
      | None =>
          let* e := perform (CallDownload audio_id audio_file video_url)
                (ydl_download audio_id audio_file video_url) in
          match e with
          | Some msg => ret (Failure msg)
          | None =>
              let* e := perform (CallMerge video_file audio_file output_file)
                    (ffmpeg_merge video_file audio_file output_file) in
              match e with
              | Some msg => ret (Failure msg)
              | None =>
                  ret (Success output_file (video_title +:+ ".mp4")
                         (Some [video_file; audio_file]))
              end
          end
      end
  end.

(** [download_video]. It raises in two places: [sanitize_filename] on
    a title that is [None], and the lookup of a key that is not in the
    map. *)
Definition download_video (video_url quality : string)
  : M (outcome DownloadResult) :=
  if negb (is_youtube_url video_url) then
    ret (Return (Failure "Invalid YouTube URL!"))
  else
    let* r := get_video_info video_url in
    match r with
    | None => ret (Return (Failure "No available formats found!"))
    | Some (video_info, available_formats, full_info) =>
        if bool_decide (available_formats = ∅) then
          ret (Return (Failure "No available formats found!"))
        else
          match _find_best_quality_match quality available_formats with
          | None | Some EmptyString =>
              ret (Return (Failure
                ("Quality '" +:+ quality +:+ "' not available!")))
          | Some selected_quality =>
              match available_formats !! selected_quality with
              | None => ret (Raise (Exception "KeyError"))
              | Some format_info =>
                  match vi_title video_info with
                  | None => ret (Raise TypeError)
                  | Some t =>
                      let video_title := sanitize_filename t in
                      match ref_type format_info with
                      | progressive =>
                          let* d := _download_progressive video_url format_info
                                video_title in
                          ret (Return d)
                      | video =>
                          let* d := _download_and_merge video_url format_info
                                video_title full_info in
                          ret (Return d)
                      end
                  end
              end
          end
    end.

End Orchestrator.

(** A path that names a file of the download folder itself: the folder, a
    slash, and a name without any of the characters [sanitize_filename]
    removes, the two path separators among them. *)
Definition in_folder (path : string) : Prop :=
  ∃ name,
    path = "downloads/" +:+ name
    ∧ all_chars (fun c => negb (invalid_char c)) name = true.

(** A call whose output files, if any, are files of the download folder. *)
Definition writes_in_folder (c : call) : Prop :=
  match c with
  | CallExtract _ => True
  | CallDownload _ outtmpl _ => in_folder outtmpl
  | CallMerge video_file audio_file output_file =>
      in_folder video_file ∧ in_folder audio_file ∧ in_folder output_file
  end.

End Downloader.

(** ** Sample data: one video as the extraction engine reports it *)

Module Samples.

Import Downloader.

(** A world that only remembers the files written, and services that
    always succeed: a fetch writes its output file, a merge its output. *)
Definition recording_engine (i : info) : Engine (list string) := {|
  extract_info _ w := (ExtractInfo i, w);
  ydl_download _ outtmpl _ w := (None, (w ++ [outtmpl])%list);
  ffmpeg_merge _ _ output_file w := (None, (w ++ [output_file])%list);
|}.

Definition start : state (list string) := {| world := []; calls := [] |}.

Definition watch_url : string := "https://www.youtube.com/watch?v=aqz-KE-bpKQ".

Definition with_formats (fs : list format) : info := {|
  title := Val "Big Buck Bunny: 60fps";
  duration := Val 635;
  thumbnail := Absent;
  uploader := Val "Blender";
  view_count := Null;
  formats := fs;
|}.

(** A 720p stream with an AAC audio track, as the engine reports it. *)
Definition f22 : format := {|
  format_id := "22"; format_note := Val "720p"; height := Val 720;
  acodec := Val "mp4a.40.2"; abr := Val (192 # 1)%Q;
|}.

(** A 240p video-only stream. *)
Definition f133 : format := {|
  format_id := "133"; format_note := Val "240p"; height := Val 240;
  acodec := Val "none"; abr := Null;
|}.

(** A 1080p video-only stream. *)
Definition f137 : format := {|
  format_id := "137"; format_note := Val "1080p"; height := Val 1080;
  acodec := Val "none"; abr := Absent;
|}.

(** A 360p stream whose codec field has the word the classifier looks
    for. *)
Definition f18 : format := {|
  format_id := "18"; format_note := Val "360p"; height := Val 360;
  acodec := Val "audio/mp4a.40.2"; abr := Val (96 # 1)%Q;
|}.

(** A stream of a height that has no label and that carries no note. *)
Definition f_odd : format := {|
  format_id := "x1"; format_note := Absent; height := Val 1000;
  acodec := Val "none"; abr := Null;
|}.

(** The download directory after a merge: the final file and the two
    intermediates; the video intermediate cannot be removed. *)
Definition merged_files : Views.filesystem := {|
  Views.files :=
    <["downloads/clip.mp4" := [Byte.x01; Byte.x02; Byte.x03]]>
    (<["downloads/clip_video.mp4" := [Byte.x01]]>
    (<["downloads/clip_audio.mp4" := [Byte.x02]]> ∅));
  Views.locked := {["downloads/clip_video.mp4"]};
|}.

(** The same directory when every file can be removed. *)
Definition removable_files : Views.filesystem := {|
  Views.files := Views.files merged_files;
  Views.locked := ∅;
|}.

(** Two audio-only streams, AAC at 129.5 kbit/s and Opus at 160. *)
Definition f140 : format := {|
  format_id := "140"; format_note := Val "medium"; height := Null;
  acodec := Val "mp4a.40.2"; abr := Val (259 # 2)%Q;
|}.

Definition f251 : format := {|
  format_id := "251"; format_note := Val "medium"; height := Null;
  acodec := Val "opus"; abr := Val (160 # 1)%Q;
|}.

(** A second 720p stream, video only, listed after [f22]. *)
Definition f136 : format := {|
  format_id := "136"; format_note := Val "720p"; height := Val 720;
  acodec := Val "none"; abr := Null;
|}.

(** A labelled stream whose codec field is [None]. *)
Definition f_null_codec : format := {|
  format_id := "x2"; format_note := Val "480p"; height := Val 480;
  acodec := Null; abr := Null;
|}.

(** A video whose title is [None]. *)
Definition untitled (fs : list format) : info := {|
  title := Null;
  duration := Absent;
  thumbnail := Absent;
  uploader := Absent;
  view_count := Absent;
  formats := fs;
|}.

(** Services whose fetches succeed and whose merge fails. *)
Definition failing_merge_engine (i : info) : Engine (list string) := {|
  extract_info _ w := (ExtractInfo i, w);
  ydl_download _ outtmpl _ w := (None, (w ++ [outtmpl])%list);
  ffmpeg_merge _ _ _ w := (Some "ffmpeg returned non-zero exit status 1", w);
|}.

End Samples.

(** * Properties *)

(** ** Text *)

Module TextFacts.

Import Text.

Lemma ascii_eqb_true (a b : ascii) : Ascii.eqb a b = true ↔ a = b.
Proof. apply Ascii.eqb_eq. Qed.

Lemma startswith_spec (p s : string) :
  startswith p s = true ↔ ∃ b, s = p +:+ b.
Proof.
  revert s. induction p as [|a p IH]; intros s; simpl.
  - split; [intros _; by exists s | done].
  - destruct s as [|c s]; simpl.
    + split; [done | intros [b Hb]; discriminate].
    + rewrite andb_true_iff, ascii_eqb_true, IH. split.
      * intros [-> [b ->]]. by exists b.
      * intros [b Hb]. injection Hb as -> ->. eauto.
Qed.

Lemma contains_spec (p s : string) :
  contains p s = true ↔ ∃ a b, s = a +:+ p +:+ b.
Proof.
  induction s as [|c s IH]; simpl; rewrite orb_true_iff, startswith_spec.
  - split.
    + intros [[b Hb]|?]; [|done]. by exists "", b.
    + intros [a [b Hab]]. left. destruct a; simpl in Hab; [eauto | done].
  - rewrite IH. split.
    + intros [[b Hb]|[a [b Hab]]].
      * by exists "", b.
      * exists (String c a), b. simpl. by rewrite Hab.
    + intros [a [b Hab]]. destruct a as [|c' a]; simpl in Hab.
      * left. eauto.
      * right. injection Hab as -> ->. eauto.
Qed.

Lemma append_assoc (a b c : string) : (a +:+ b) +:+ c = a +:+ (b +:+ c).
Proof. induction a as [|x a IH]; [done | exact (f_equal (String x) IH)]. Qed.

Lemma endswith_spec (p s : string) :
  endswith p s = true ↔ ∃ a, s = a +:+ p.
Proof.
  induction s as [|c s IH]; simpl; rewrite orb_true_iff, String.eqb_eq.
  - split.
    + intros [->|?]; [by exists "" | done].
    + intros [a Ha]. left. destruct a; simpl in Ha; [done | discriminate].
  - rewrite IH. split.
    + intros [->|[a ->]]; [by exists "" | by exists (String c a)].
    + intros [a Ha]. destruct a as [|c' a]; simpl in Ha.
      * by left.
      * right. injection Ha as -> ->. eauto.
Qed.

(** A string that holds [p +:+ q] holds [p]. *)
Lemma contains_prefix_of_pattern (p q s : string) :
  contains (p +:+ q) s = true → contains p s = true.
Proof.
  rewrite !contains_spec. intros [a [b ->]].
  exists a, (q +:+ b). by rewrite append_assoc.
Qed.

Lemma map_chars_app (f : ascii → ascii) (a b : string) :
  map_chars f (a +:+ b) = map_chars f a +:+ map_chars f b.
Proof.
  induction a as [|x a IH]; [done | exact (f_equal (String (f x)) IH)].
Qed.

Lemma lower_app (a b : string) : lower (a +:+ b) = lower a +:+ lower b.
Proof. apply map_chars_app. Qed.

Lemma map_chars_id (f : ascii → ascii) (s : string) :
  all_chars (fun c => bool_decide (f c = c)) s = true → map_chars f s = s.
Proof.
  induction s as [|c s IH]; simpl; [done |].
  rewrite andb_true_iff, bool_decide_eq_true. intros [-> ?]. by rewrite IH.
Qed.

Lemma filter_chars_id (keep : ascii → bool) (s : string) :
  all_chars keep s = true → filter_chars keep s = s.
Proof.
  induction s as [|c s IH]; simpl; [done |].
  rewrite andb_true_iff. intros [-> ?]. by rewrite IH.
Qed.

Lemma all_chars_impl (p q : ascii → bool) (s : string) :
  (∀ c, p c = true → q c = true) →
  all_chars p s = true → all_chars q s = true.
Proof.
  intros Hpq. induction s as [|c s IH]; simpl; [done |].
  rewrite !andb_true_iff. intros [? ?]. auto.
Qed.

(** A name that ends with a suffix whose last character is not white
    space loses nothing at its end. *)
Lemma rstrip_endswith (p s : string) :
  p ≠ "" → rstrip p = p → endswith p s = true → rstrip s = s.
Proof.
  intros Hne Hp. induction s as [|c s IH]; intros Hs.
  - simpl in Hs. rewrite orb_false_r, String.eqb_eq in Hs. by subst p.
  - cbn [endswith] in Hs. apply orb_true_iff in Hs as [Heq|Hs].
    + apply String.eqb_eq in Heq. by subst p.
    + cbn [rstrip]. rewrite (IH Hs). destruct s; [|done].
      simpl in Hs. rewrite orb_false_r, String.eqb_eq in Hs. done.
Qed.

End TextFacts.

(** ** Regular expressions: the matcher finds the words of the expression *)

Module ReFacts.

Import Text TextFacts Re.

Lemma append_empty_inv (u v : string) : u +:+ v = "" → u = "" ∧ v = "".
Proof. destruct u; [done | discriminate]. Qed.

Lemma lang_eps_inv (w : string) : lang Eps w → w = "".
Proof. by inversion 1. Qed.

Lemma lang_chr_inv (c : ascii) (w : string) :
  lang (Chr c) w → w = String c "".
Proof. by inversion 1. Qed.

Lemma lang_dot_inv (w : string) :
  lang Dot w → ∃ c, c ≠ line_feed ∧ w = String c "".
Proof. inversion 1; subst. eauto. Qed.

Lemma lang_cat_inv (r1 r2 : regex) (w : string) :
  lang (Cat r1 r2) w → ∃ u v, w = u +:+ v ∧ lang r1 u ∧ lang r2 v.
Proof. inversion 1; subst. eauto. Qed.

Lemma lang_alt_inv (r1 r2 : regex) (w : string) :
  lang (Alt r1 r2) w → lang r1 w ∨ lang r2 w.
Proof. inversion 1; subst; eauto. Qed.

Lemma lang_star_inv (r : regex) (w : string) :
  lang (Star r) w →
  w = ""
  ∨ ∃ c u v, w = String c u +:+ v ∧ lang r (String c u) ∧ lang (Star r) v.
Proof. inversion 1; subst; [by left | right; eauto 6]. Qed.

Lemma nullable_lang (r : regex) : nullable r = true ↔ lang r "".
Proof.
  induction r as [| |c| |r1 IH1 r2 IH2|r1 IH1 r2 IH2|r IH]; simpl.
  - split; [done | inversion 1].
  - split; [constructor | done].
  - split; [done | by intros ?%lang_chr_inv].
  - split; [done | by intros (c & _ & ?)%lang_dot_inv].
  - rewrite andb_true_iff, IH1, IH2. split.
    + intros [? ?]. by apply (lang_cat r1 r2 "" "").
    + intros (u & v & Hw & ? & ?)%lang_cat_inv.
      symmetry in Hw. apply append_empty_inv in Hw as [-> ->]. done.
  - rewrite orb_true_iff, IH1, IH2. split.
    + intros [?|?]; [by apply lang_alt_l | by apply lang_alt_r].
    + apply lang_alt_inv.
  - split; [constructor | done].
Qed.

Lemma deriv_lang (a : ascii) (r : regex) (w : string) :
  lang (deriv a r) w ↔ lang r (String a w).
Proof.
  revert w.
  induction r as [| |c| |r1 IH1 r2 IH2|r1 IH1 r2 IH2|r IH]; intros w; simpl.
  - split; inversion 1.
  - split; inversion 1.
  - destruct (Ascii.eqb a c) eqn:Hac.
    + apply Ascii.eqb_eq in Hac as ->. split.
      * intros ->%lang_eps_inv. constructor.
      * intros [= ->]%lang_chr_inv. constructor.
    + apply Ascii.eqb_neq in Hac. split; [inversion 1 |].
      intros [= ? ?]%lang_chr_inv. done.
  - destruct (Ascii.eqb a line_feed) eqn:Hal.
    + apply Ascii.eqb_eq in Hal. subst a. split; [inversion 1 |].
      intros (c & Hc & [= <- ->])%lang_dot_inv. done.
    + apply Ascii.eqb_neq in Hal. split.
      * intros ->%lang_eps_inv. by constructor.
      * intros (c & Hc & [= -> ->])%lang_dot_inv. constructor.
  - assert (lang (Cat (deriv a r1) r2) w
            → lang (Cat r1 r2) (String a w)) as Hhead.
    { intros (u & v & -> & Hu & Hv)%lang_cat_inv.
      apply IH1 in Hu. by apply (lang_cat r1 r2 (String a u) v). }
    assert (lang (Cat r1 r2) (String a w)
            → lang (Cat (deriv a r1) r2) w
              ∨ (lang r1 "" ∧ lang (deriv a r2) w)) as Hsplit.
    { intros (u & v & Huv & Hu & Hv)%lang_cat_inv.
      destruct u as [|c u].
      - right. pose proof (eq_sym Huv : v = String a w) as ->.
        split; [done | by apply IH2].
      - left. injection Huv as <- ->. apply lang_cat; [by apply IH1 | done]. }
    destruct (nullable r1) eqn:Hn.
    + split.
      * intros [?|Hv]%lang_alt_inv; [by apply Hhead |].
        apply IH2 in Hv. apply nullable_lang in Hn.
        by apply (lang_cat r1 r2 "" (String a w)).
      * intros [?|[_ ?]]%Hsplit; [by apply lang_alt_l | by apply lang_alt_r].
    + split; [apply Hhead |].
      intros [?|[Hnull _]]%Hsplit; [done |].
      apply nullable_lang in Hnull. congruence.
  - split.
    + intros [?%IH1|?%IH2]%lang_alt_inv;
        [by apply lang_alt_l | by apply lang_alt_r].
    + intros [?|?]%lang_alt_inv;
        [apply lang_alt_l; by apply IH1 | apply lang_alt_r; by apply IH2].
  - split.
    + intros (u & v & -> & Hu & Hv)%lang_cat_inv. apply IH in Hu.
      by apply (lang_star_cons r a u v).
    + intros [?|(c & u & v & Huv & Hu & Hv)]%lang_star_inv; [done |].
      injection Huv as <- ->. apply lang_cat; [by apply IH | done].
Qed.

(** [re_match] holds exactly when the string starts with a word of the
    expression. *)
Lemma re_match_lang (r : regex) (s : string) :
  re_match r s = true ↔ ∃ u v, s = u +:+ v ∧ lang r u.
Proof.
  revert r. induction s as [|c s IH]; intros r; simpl;
    rewrite orb_true_iff, nullable_lang.
  - split.
    + intros [?|?]; [by exists "", "" | done].
    + intros (u & v & Huv & Hu). left.
      symmetry in Huv. by apply append_empty_inv in Huv as [-> _].
  - rewrite IH. split.
    + intros [?|(u & v & -> & Hu)]; [by exists "", (String c s) |].
      exists (String c u), v. split; [done | by apply deriv_lang].
    + intros (u & v & Huv & Hu). destruct u as [|c' u]; [by left |].
      right. injection Huv as <- ->. exists u, v. split; [done |].
      by apply deriv_lang.
Qed.

Lemma lang_lit (s w : string) : lang (Lit s) w ↔ w = s.
Proof.
  revert w. induction s as [|c s IH]; intros w; simpl.
  - split; [apply lang_eps_inv | intros ->; constructor].
  - split.
    + intros (u & v & -> & Hu%lang_chr_inv & Hv%IH)%lang_cat_inv.
      by subst u v.
    + intros ->. apply (lang_cat (Chr c) (Lit s) (String c "") s);
        [constructor | by apply IH].
Qed.

Lemma lang_opt (r : regex) (w : string) : lang (Opt r) w ↔ w = "" ∨ lang r w.
Proof.
  unfold Opt. split.
  - intros [?|?%lang_eps_inv]%lang_alt_inv; [by right | by left].
  - intros [->|?]; [apply lang_alt_r; constructor | by apply lang_alt_l].
Qed.

(** A word of [.+] starts with a character that is not a line feed. *)
Lemma lang_plus_dot_head (w : string) :
  lang (Plus Dot) w → ∃ c rest, c ≠ line_feed ∧ w = String c rest.
Proof.
  intros (u & v & -> & (c & Hc & ->)%lang_dot_inv & _)%lang_cat_inv.
  by exists c, v.
Qed.

Lemma lang_plus_dot_one (c : ascii) :
  c ≠ line_feed → lang (Plus Dot) (String c "").
Proof.
  intros Hc. apply (lang_cat Dot (Star Dot) (String c "") "");
    by constructor.
Qed.

End ReFacts.

(** ** The platform classifier, the filename cleaner, the file server *)

Module ViewsSpec.

Import Text TextFacts Views.

(** A shorts address holds the pattern of the generic check too, so
    only the order of the tests tells the two apart. *)
Lemma shorts_url_is_youtube_url (url : string) :
  contains "youtube.com/shorts/" url = true →
  contains "youtube.com" url = true.
Proof. apply (contains_prefix_of_pattern "youtube.com" "/shorts/"). Qed.

Lemma get_platform_shorts (url : string) :
  contains "youtube.com/shorts/" url = true →
  get_platform url = youtube_shorts.
Proof. intros Hs. unfold get_platform. by rewrite Hs. Qed.

(** C7. The classifier is a total function of the URL alone. Every URL
    that holds "youtube.com/shorts/" is classified [youtube_shorts],
    although it also passes the generic youtube test, which comes second;
    every URL that holds none of the patterns is classified [unknown]. *)
Theorem get_platform_shorts_first_unknown_last (url : string) :
  (contains "youtube.com/shorts/" url = true →
     contains "youtube.com" url = true ∧ get_platform url = youtube_shorts)
  ∧ (forallb (fun p => negb (contains p url)) platform_patterns = true →
     get_platform url = unknown).
Proof.
  split.
  - intros Hs. split; [by apply shorts_url_is_youtube_url |].
    by apply get_platform_shorts.
  - cbn [forallb platform_patterns]. rewrite !andb_true_iff, !negb_true_iff.
    intros (H1 & H2 & H3 & H4 & H5 & H6 & H7 & _).
    unfold get_platform. by rewrite H1, H2, H3, H4, H5, H6, H7.
Qed.

Lemma get_platform_shorts_first_unknown_last_witness :
  get_platform "https://www.youtube.com/shorts/abc?feature=share"
    = youtube_shorts
  ∧ get_platform "ftp://example.org/clip.mp4" = unknown.
Proof.
  split.
  - apply (proj1 (get_platform_shorts_first_unknown_last
                    "https://www.youtube.com/shorts/abc?feature=share")).
    reflexivity.
  - apply (proj2 (get_platform_shorts_first_unknown_last
                    "ftp://example.org/clip.mp4")).
    reflexivity.
Defined.

(** The same in terms of the text of the URL: whatever stands before
    and after the pattern. *)
Corollary get_platform_shorts_anywhere (before after : string) :
  get_platform (before +:+ "youtube.com/shorts/" +:+ after) = youtube_shorts.
Proof.
  apply get_platform_shorts, contains_spec. eauto.
Qed.

(** *** The filename cleaner *)

Section CleanerFacts.
Context `{Codecs}.

Lemma decode_filename_plain (s : string) :
  startswith q_prefix (lower s) = false →
  startswith b_prefix (lower s) = false →
  decode_filename s = Return s.
Proof. intros Hq Hb. unfold decode_filename. by rewrite Hq, Hb. Qed.

Lemma decode_filename_literal (s : string) :
  startswith q_prefix (lower s) = true →
  decode_header s = Return [(Str s, None)] →
  decode_filename s = Return s.
Proof. intros Hq Hd. unfold decode_filename. by rewrite Hq, Hd. Qed.

Lemma endswith_mp4_lower (s : string) :
  endswith mp4 s = true → endswith mp4 (lower s) = true.
Proof.
  rewrite !endswith_spec. intros [a ->]. exists (lower a).
  by rewrite lower_app.
Qed.

Lemma sanitized_name_kept (s : string) (ascii_only : bool) :
  already_sanitized s = true →
  lstrip s = s →
  decode_filename s = Return s →
  cleaned_name s ascii_only = s.
Proof.
  unfold already_sanitized. rewrite !andb_true_iff.
  intros [[Hascii Hext] Hlegal] Hl Hd.
  unfold cleaned_name. rewrite Hd.
  assert (replace_illegal s = s) as ->.
  { apply map_chars_id. revert Hlegal. apply all_chars_impl.
    intros c Hc. apply bool_decide_eq_true.
    by destruct (illegal_char c). }
  assert (ascii_ignore s = s) as Ha by by apply filter_chars_id.
  assert (strip s = s) as Hs.
  { unfold strip. rewrite Hl. by apply (rstrip_endswith mp4). }
  destruct ascii_only; by rewrite ?Ha, Hs.
Qed.

Lemma clean_filename_ends_with_mp4 (s : string) (ascii_only : bool) :
  endswith mp4 (lower (clean_filename s ascii_only)) = true.
Proof.
  unfold clean_filename.
  destruct (endswith mp4 (lower (cleaned_name s ascii_only))) eqn:He.
  - done.
  - apply endswith_spec. exists (lower (cleaned_name s ascii_only)).
    by rewrite lower_app.
Qed.

Lemma cleaned_name_of_failure (s : string) (ascii_only : bool) (e : exn) :
  decode_filename s = Raise e → cleaned_name s ascii_only = "video".
Proof. intros Hd. unfold cleaned_name. rewrite Hd. by destruct ascii_only. Qed.

End CleanerFacts.

(** C8, the claim as stated fails: a name that starts with a space is
    pure ASCII, ends with ".mp4" and has no illegal character, and the
    cleaner returns it without the space, whatever the decoders do. *)
Lemma clean_filename_strips_a_sanitized_name :
  already_sanitized " a.mp4" = true
  ∧ ∀ (C : Codecs) (ascii_only : bool),
      clean_filename " a.mp4" ascii_only = "a.mp4".
Proof. split; [done |]. by intros C []. Qed.

(** A name with the base64 prefix is decoded first: when the decoder
    rejects what follows the prefix, the result is the generic name. *)
Lemma clean_filename_decodes_a_sanitized_name `{Codecs} (e : exn) :
  b64decode ".mp4" = Raise e →
  already_sanitized "=_utf-8_b_.mp4" = true
  ∧ clean_filename "=_utf-8_b_.mp4" true = "video.mp4".
Proof.
  intros Hb. split; [done |].
  unfold clean_filename, cleaned_name, decode_filename. cbn. by rewrite Hb.
Qed.

(** C8, amended. A name that is pure ASCII, ends with ".mp4", has no
    illegal character, does not start with white space and does not
    start with the base64 prefix is returned unchanged; when it starts
    with the quoted-printable prefix this holds as long as the header
    decoder finds no encoded word in it. *)
Theorem clean_filename_keeps_sanitized_names `{Codecs}
  (s : string) (ascii_only : bool) :
  already_sanitized s = true →
  lstrip s = s →
  startswith b_prefix (lower s) = false →
  (startswith q_prefix (lower s) = true →
     decode_header s = Return [(Str s, None)]) →
  clean_filename s ascii_only = s.
Proof.
  intros Hs Hl Hb Hq.
  assert (decode_filename s = Return s) as Hd.
  { destruct (startswith q_prefix (lower s)) eqn:Hqs.
    - by apply decode_filename_literal; [| apply Hq].
    - by apply decode_filename_plain. }
  unfold clean_filename. rewrite (sanitized_name_kept s ascii_only Hs Hl Hd).
  unfold already_sanitized in Hs. rewrite !andb_true_iff in Hs.
  destruct Hs as [[_ Hext] _]. by rewrite (endswith_mp4_lower s Hext).
Qed.

Lemma clean_filename_keeps_sanitized_names_witness :
  @clean_filename literal_header_codecs "=_UTF-8_q_My_Video_.mp4" true
    = "=_UTF-8_q_My_Video_.mp4"
  ∧ @clean_filename no_codecs "My_Video_.mp4" true = "My_Video_.mp4".
Proof.
  split.
  - apply (@clean_filename_keeps_sanitized_names literal_header_codecs);
      reflexivity.
  - apply (@clean_filename_keeps_sanitized_names no_codecs);
      [reflexivity | reflexivity | reflexivity | intros Hq; discriminate Hq].
Defined.

(** C9, the claim as stated fails: the empty title gives the bare
    extension, and a name that ends with ".MP4" is returned as it is, so
    it does not end with ".mp4". *)
Lemma clean_filename_bare_extension_and_upper_case :
  (∀ (C : Codecs) (ascii_only : bool), clean_filename "" ascii_only = ".mp4")
  ∧ (∀ (C : Codecs) (ascii_only : bool),
       clean_filename "A.MP4" ascii_only = "A.MP4")
  ∧ endswith ".mp4" "A.MP4" = false.
Proof. split; [by intros C [] | split; [by intros C [] | done]]. Qed.

(** C9, amended. The cleaner returns a name for every input. The name
    ends with ".mp4" in some letter case: the extension is appended when
    the cleaned name does not end with it in any letter case, and only
    then. When the decoding raises, the name is "video.mp4". *)
Theorem clean_filename_total_extension `{Codecs}
  (s : string) (ascii_only : bool) :
  endswith mp4 (lower (clean_filename s ascii_only)) = true
  ∧ (endswith mp4 (lower (cleaned_name s ascii_only)) = true →
       clean_filename s ascii_only = cleaned_name s ascii_only)
  ∧ (endswith mp4 (lower (cleaned_name s ascii_only)) = false →
       clean_filename s ascii_only = cleaned_name s ascii_only +:+ ".mp4")
  ∧ (∀ e, decode_filename s = Raise e →
       clean_filename s ascii_only = "video.mp4").
Proof.
  split; [apply clean_filename_ends_with_mp4 |].
  unfold clean_filename.
  split; [by intros -> | split; [by intros -> |]].
  intros e He. by rewrite (cleaned_name_of_failure s ascii_only e He).
Qed.

Lemma clean_filename_total_extension_witness :
  @clean_filename no_codecs "=_utf-8_b_.mp4" true = "video.mp4"
  ∧ @clean_filename no_codecs "My:Video?.mp4" true = "My_Video_.mp4"
  ∧ @clean_filename no_codecs "clip" true = "clip.mp4".
Proof.
  pose proof (@clean_filename_total_extension no_codecs) as T.
  split; [| split].
  - apply (proj2 (proj2 (proj2 (T "=_utf-8_b_.mp4" true)))
             (Exception "b64decode")).
    reflexivity.
  - apply (proj1 (proj2 (T "My:Video?.mp4" true))). reflexivity.
  - apply (proj1 (proj2 (proj2 (T "clip" true)))). reflexivity.
Defined.

(** *** The streaming file server *)

Lemma os_remove_outcome (path : string) (fs : filesystem) :
  (os_remove path fs).2 = Return () ∨ (os_remove path fs).2 = Raise OSError.
Proof.
  unfold os_remove. destruct (files fs !! path); [|by right].
  case_bool_decide; [by right | by left].
Qed.

Lemma os_remove_unlocked (path : string) (fs : filesystem) (data : bytes) :
  files fs !! path = Some data →
  path ∉ locked fs →
  os_remove path fs
  = ({| files := delete path (files fs); locked := locked fs |}, Return ()).
Proof.
  intros Hf Hl. unfold os_remove. rewrite Hf. by rewrite bool_decide_eq_false_2.
Qed.

Lemma os_remove_locked (path : string) (fs : filesystem) :
  path ∈ locked fs → os_remove path fs = (fs, Raise OSError).
Proof.
  intros Hl. unfold os_remove. destruct (files fs !! path); [|done].
  by rewrite bool_decide_eq_true_2.
Qed.

Lemma remove_temp_files_outcome (temp_files : list string) (fs : filesystem) :
  (remove_temp_files temp_files fs).2 = Return ()
  ∨ (remove_temp_files temp_files fs).2 = Raise OSError.
Proof.
  revert fs. induction temp_files as [|t rest IH]; intros fs; simpl.
  - by left.
  - destruct (os_path_exists t fs); [|apply IH].
    destruct (os_remove_outcome t fs) as [Ho|Ho];
      destruct (os_remove t fs) as [fs' o]; simpl in Ho; subst o.
    + apply IH.
    + by right.
Qed.

Lemma cleanup_body_outcome (path : string) (temp_files : option (list string))
  (fs : filesystem) :
  (cleanup_body path temp_files fs).2 = Return ()
  ∨ (cleanup_body path temp_files fs).2 = Raise OSError.
Proof.
  unfold cleanup_body.
  destruct (os_remove_outcome path fs) as [Ho|Ho];
    destruct (os_remove path fs) as [fs' o]; simpl in Ho; subst o.
  - destruct temp_files as [[|t ts]|]; [by left | | by left].
    apply remove_temp_files_outcome.
  - by right.
Qed.

(** When the loop meets no path whose removal fails, it removes every
    path of the list and leaves every other path as it was. A removal
    fails when the path is there and cannot be removed. *)
Lemma remove_temp_files_all (temp_files : list string) (fs : filesystem) :
  (∀ t, t ∈ temp_files → t ∉ locked fs ∨ files fs !! t = None) →
  ∃ fs', remove_temp_files temp_files fs = (fs', Return ())
    ∧ locked fs' = locked fs
    ∧ (∀ p, p ∈ temp_files → files fs' !! p = None)
    ∧ (∀ p, p ∉ temp_files → files fs' !! p = files fs !! p).
Proof.
  revert fs. induction temp_files as [|t rest IH]; intros fs Hok; simpl.
  - exists fs. split_and!; [done | done | | done].
    intros p Hp. by apply elem_of_nil in Hp.
  - unfold os_path_exists. case_bool_decide as He.
    + destruct He as [data He].
      assert (t ∉ locked fs) as Ht.
      { destruct (Hok t) as [?|Hnone]; [by left | done | congruence]. }
      rewrite (os_remove_unlocked _ _ _ He Ht).
      destruct (IH {| files := delete t (files fs); locked := locked fs |})
        as (fs' & Hr & Hk & Hgone & Hkeep).
      { intros x Hx. simpl. destruct (Hok x) as [?|Hnone]; [by right | by left |].
        right. rewrite lookup_delete_None. by right. }
      exists fs'. split_and!; [done | done | |].
      * intros p [->|Hp]%elem_of_cons; [|by apply Hgone].
        destruct (decide (t ∈ rest)) as [Hin|Hout]; [by apply Hgone |].
        rewrite (Hkeep t Hout). simpl. apply lookup_delete_eq.
      * intros p [Hpt Hp]%not_elem_of_cons. rewrite (Hkeep p Hp). simpl.
        by rewrite lookup_delete_ne.
    + apply eq_None_not_Some in He.
      destruct (IH fs) as (fs' & Hr & Hk & Hgone & Hkeep).
      { intros x Hx. apply Hok. by right. }
      exists fs'. split_and!; [done | done | |].
      * intros p [->|Hp]%elem_of_cons; [|by apply Hgone].
        destruct (decide (t ∈ rest)) as [Hin|Hout]; [by apply Hgone |].
        by rewrite (Hkeep t Hout).
      * intros p [_ Hp]%not_elem_of_cons. by apply Hkeep.
Qed.

(** The loop stops at the first path whose removal fails: the paths
    before it are removed, and every other path, those after it among them,
    is left as it was. *)
Lemma remove_temp_files_first_failure (before after : list string)
  (t : string) (fs : filesystem) :
  (∀ x, x ∈ before → x ∉ locked fs ∨ files fs !! x = None) →
  t ∈ locked fs →
  is_Some (files fs !! t) →
  ∃ fs', remove_temp_files (before ++ t :: after) fs = (fs', Raise OSError)
    ∧ locked fs' = locked fs
    ∧ (∀ x, x ∈ before → files fs' !! x = None)
    ∧ (∀ p, p ∉ before → files fs' !! p = files fs !! p).
Proof.
  revert fs. induction before as [|b before IH]; intros fs Hb Ht He; simpl.
  - unfold os_path_exists. rewrite (bool_decide_eq_true_2 _ He).
    rewrite (os_remove_locked _ _ Ht). exists fs.
    split_and!; [done | done | | done].
    intros x Hx. by apply elem_of_nil in Hx.
  - assert (b ≠ t) as Hne.
    { intros ->. destruct (Hb t) as [?|Hnone]; [by left | done |].
      destruct He as [d Hd]. congruence. }
    unfold os_path_exists. case_bool_decide as Hex.
    + destruct Hex as [data Hex].
      assert (b ∉ locked fs) as Hbl.
      { destruct (Hb b) as [?|Hnone]; [by left | done | congruence]. }
      rewrite (os_remove_unlocked _ _ _ Hex Hbl).
      destruct (IH {| files := delete b (files fs); locked := locked fs |})
        as (fs' & Hr & Hk & Hgone & Hkeep).
      { intros x Hx. simpl. destruct (Hb x) as [?|Hnone]; [by right | by left |].
        right. rewrite lookup_delete_None. by right. }
      { done. }
      { simpl. by rewrite lookup_delete_ne. }
      exists fs'. split_and!; [done | done | |].
      * intros x [->|Hx]%elem_of_cons; [|by apply Hgone].
        destruct (decide (b ∈ before)) as [Hin|Hout]; [by apply Hgone |].
        rewrite (Hkeep b Hout). simpl. apply lookup_delete_eq.
      * intros p [Hpb Hp]%not_elem_of_cons. rewrite (Hkeep p Hp). simpl.
        by rewrite lookup_delete_ne.
    + apply eq_None_not_Some in Hex.
      destruct (IH fs) as (fs' & Hr & Hk & Hgone & Hkeep); [| done | done |].
      { intros x Hx. apply Hb. by right. }
      exists fs'. split_and!; [done | done | |].
      * intros x [->|Hx]%elem_of_cons; [|by apply Hgone].
        destruct (decide (b ∈ before)) as [Hin|Hout]; [by apply Hgone |].
        by rewrite (Hkeep b Hout).
      * intros p [_ Hp]%not_elem_of_cons. by apply Hkeep.
Qed.

Lemma remove_temp_files_keeps_locked (temp_files : list string)
  (fs : filesystem) :
  locked (remove_temp_files temp_files fs).1 = locked fs.
Proof.
  revert fs. induction temp_files as [|t rest IH]; intros fs; simpl; [done |].
  destruct (os_path_exists t fs); [|apply IH].
  unfold os_remove. destruct (files fs !! t); [|done].
  case_bool_decide; [done |]. by rewrite IH.
Qed.

Lemma cleanup_body_keeps_locked (path : string)
  (temp_files : option (list string)) (fs : filesystem) :
  locked (cleanup_body path temp_files fs).1 = locked fs.
Proof.
  unfold cleanup_body, os_remove. destruct (files fs !! path); [|done].
  case_bool_decide; [done |].
  destruct temp_files as [[|t ts]|]; [done | | done].
  by rewrite remove_temp_files_keeps_locked.
Qed.

(** The reads return the whole file, piece by piece. *)
Lemma read_chunks_whole (fuel chunk_size : nat) (data : bytes) :
  (0 < chunk_size)%nat →
  (length data < fuel)%nat →
  mjoin (read_chunks fuel chunk_size data) = data.
Proof.
  intros Hn. revert data. induction fuel as [|fuel IH]; intros data Hf.
  - lia.
  - cbn [read_chunks].
    destruct (take chunk_size data) as [|b chunk] eqn:Ht.
    + destruct data as [|d data]; [done |].
      destruct chunk_size; [lia | discriminate].
    + rewrite <- Ht. cbn [mjoin list_join]. rewrite IH.
      * apply take_drop.
      * rewrite length_drop. destruct data; [by rewrite take_nil in Ht |].
        simpl in Hf |- *. lia.
Qed.

Lemma cleanup_eq (path : string) (temp_files : option (list string))
  (fs : filesystem) :
  cleanup path temp_files fs
  = ((cleanup_body path temp_files fs).1, Return ()).
Proof.
  unfold cleanup.
  destruct (cleanup_body_outcome path temp_files fs) as [Ho|Ho];
    destruct (cleanup_body path temp_files fs) as [fs' o]; simpl in Ho;
    by subst o.
Qed.

Lemma cleanup_body_unlocked_source (path : string)
  (temp_files : option (list string)) (fs : filesystem) (data : bytes) :
  files fs !! path = Some data →
  path ∉ locked fs →
  cleanup_body path temp_files fs
  = remove_temp_files (default [] temp_files)
      {| files := delete path (files fs); locked := locked fs |}.
Proof.
  intros Hf Hl. unfold cleanup_body. rewrite (os_remove_unlocked _ _ _ Hf Hl).
  by destruct temp_files as [[|t ts]|].
Qed.

(** C5, the claim as stated fails: the video intermediate cannot be
    removed, and the audio intermediate, which comes after it and could
    be removed, is still there when the stream is exhausted. *)
Lemma file_iterator_leaves_files_after_a_failure :
  file_iterator
    (Some ["downloads/clip_video.mp4"; "downloads/clip_audio.mp4"])
    "downloads/clip.mp4" default_chunk_size Samples.merged_files
  = ({| files :=
          <["downloads/clip_video.mp4" := [Byte.x01]]>
          (<["downloads/clip_audio.mp4" := [Byte.x02]]> ∅);
        locked := {["downloads/clip_video.mp4"]} |},
     Return [[Byte.x01; Byte.x02; Byte.x03]])
  ∧ bool_decide ("downloads/clip_audio.mp4" ∈ locked Samples.merged_files)
    = false.
Proof. by vm_compute. Qed.

(** C5, amended. When the chunk sequence is exhausted the server has
    read the whole file; it then removes the source file and, in their
    order, the paths of [temp_files] that exist, up to the first removal
    that fails. No failure is escalated, and the paths that cannot be
    removed stay the same. When no removal fails, the source and every path
    of [temp_files] are gone and every other path is as it was. When the
    removal of the source fails, nothing is removed. When the removal of a
    temporary file fails, the source and the temporary files before it are
    gone, and every other path, those after it among them, is as it was:
    they are not attempted. *)
Theorem file_iterator_cleans_up_to_first_failure
  (temp_files : option (list string)) (path : string) (chunk_size : nat)
  (fs : filesystem) (data : bytes) :
  files fs !! path = Some data →
  ∃ fs' chunks,
    file_iterator temp_files path chunk_size fs = (fs', Return chunks)
    ∧ ((0 < chunk_size)%nat → mjoin chunks = data)
    ∧ locked fs' = locked fs
    ∧ (path ∉ locked fs →
       (∀ t, t ∈ default [] temp_files →
             t ∉ locked fs ∨ files fs !! t = None) →
       files fs' !! path = None
       ∧ (∀ t, t ∈ default [] temp_files → files fs' !! t = None)
       ∧ (∀ p, p ≠ path → p ∉ default [] temp_files →
               files fs' !! p = files fs !! p))
    ∧ (path ∈ locked fs → fs' = fs)
    ∧ (∀ before t after,
         temp_files = Some (before ++ t :: after)%list →
         path ∉ locked fs →
         (∀ x, x ∈ before → x ∉ locked fs ∨ files fs !! x = None) →
         t ∈ locked fs →
         is_Some (files fs !! t) →
         files fs' !! path = None
         ∧ (∀ x, x ∈ before → files fs' !! x = None)
         ∧ (∀ p, p ≠ path → p ∉ before → files fs' !! p = files fs !! p)).
Proof.
  intros Hf. unfold file_iterator. rewrite Hf, cleanup_eq.
  eexists _, _. split; [reflexivity |]. split_and!.
  - intros Hn. apply read_chunks_whole; [done | lia].
  - apply cleanup_body_keeps_locked.
  - intros Hl Hts. rewrite (cleanup_body_unlocked_source _ _ _ _ Hf Hl).
    destruct (remove_temp_files_all (default [] temp_files)
                {| files := delete path (files fs); locked := locked fs |})
      as (fs' & -> & _ & Hgone & Hkeep).
    { intros t Ht. simpl. destruct (Hts t Ht) as [?|Hnone]; [by left |].
      right. rewrite lookup_delete_None. by right. }
    simpl. split_and!; [| done |].
    + destruct (decide (path ∈ default [] temp_files)) as [Hin|Hout];
        [by apply Hgone |].
      rewrite (Hkeep path Hout). simpl. apply lookup_delete_eq.
    + intros p Hp Hout. rewrite (Hkeep p Hout). simpl.
      by rewrite lookup_delete_ne.
  - intros Hl. unfold cleanup_body. by rewrite (os_remove_locked _ _ Hl).
  - intros before t after -> Hl Hb Ht He.
    rewrite (cleanup_body_unlocked_source _ _ _ _ Hf Hl).
    cbn [from_option id].
    assert (t ≠ path) as Hne by (intros ->; done).
    destruct (remove_temp_files_first_failure before after t
                {| files := delete path (files fs); locked := locked fs |})
      as (fs' & -> & _ & Hgone & Hkeep).
    { intros x Hx. simpl. destruct (Hb x Hx) as [?|Hnone]; [by left |].
      right. rewrite lookup_delete_None. by right. }
    { done. }
    { simpl. by rewrite lookup_delete_ne. }
    simpl. split_and!; [| done |].
    + destruct (decide (path ∈ before)) as [Hin|Hout]; [by apply Hgone |].
      rewrite (Hkeep path Hout). simpl. apply lookup_delete_eq.
    + intros p Hp Hout. rewrite (Hkeep p Hout). simpl.
      by rewrite lookup_delete_ne.
Qed.

Lemma file_iterator_cleans_up_to_first_failure_witness :
  (∃ fs' chunks,
     file_iterator
       (Some ["downloads/clip_video.mp4"; "downloads/clip_audio.mp4"])
       "downloads/clip.mp4" default_chunk_size Samples.removable_files
     = (fs', Return chunks)
     ∧ mjoin chunks = [Byte.x01; Byte.x02; Byte.x03]
     ∧ files fs' !! "downloads/clip.mp4" = None
     ∧ files fs' !! "downloads/clip_video.mp4" = None
     ∧ files fs' !! "downloads/clip_audio.mp4" = None)
  ∧ (∃ fs' chunks,
       file_iterator
         (Some ["downloads/clip_audio.mp4"; "downloads/clip_video.mp4";
                "downloads/other.mp4"])
         "downloads/clip.mp4" default_chunk_size Samples.merged_files
       = (fs', Return chunks)
       ∧ files fs' !! "downloads/clip.mp4" = None
       ∧ files fs' !! "downloads/clip_audio.mp4" = None
       ∧ files fs' !! "downloads/clip_video.mp4" = Some [Byte.x01]).
Proof.
  split.
  - destruct (file_iterator_cleans_up_to_first_failure
                (Some ["downloads/clip_video.mp4"; "downloads/clip_audio.mp4"])
                "downloads/clip.mp4" default_chunk_size
                Samples.removable_files
                [Byte.x01; Byte.x02; Byte.x03] eq_refl)
      as (fs' & chunks & Hrun & Hwhole & _ & Hgone & _).
    exists fs', chunks. split; [exact Hrun |].
    split; [apply Hwhole, Nat.ltb_lt; vm_compute; reflexivity |].
    destruct Hgone as (Hsrc & Htmp & _).
    + apply not_elem_of_empty.
    + intros t _. left. apply not_elem_of_empty.
    + split; [exact Hsrc |].
      split; apply Htmp; simpl; [left | right; left].
  - destruct (file_iterator_cleans_up_to_first_failure
                (Some ["downloads/clip_audio.mp4"; "downloads/clip_video.mp4";
                       "downloads/other.mp4"])
                "downloads/clip.mp4" default_chunk_size Samples.merged_files
                [Byte.x01; Byte.x02; Byte.x03] eq_refl)
      as (fs' & chunks & Hrun & _ & _ & _ & _ & Hstop).
    exists fs', chunks. split; [exact Hrun |].
    destruct (Hstop ["downloads/clip_audio.mp4"] "downloads/clip_video.mp4"
                ["downloads/other.mp4"]) as (Hsrc & Hbefore & Hrest).
    + reflexivity.
    + apply (bool_decide_unpack _). vm_compute. exact I.
    + intros x Hx. left. apply list_elem_of_singleton in Hx. subst x.
      apply (bool_decide_unpack _). vm_compute. exact I.
    + apply (bool_decide_unpack _). vm_compute. exact I.
    + by eexists.
    + split; [exact Hsrc |]. split; [apply Hbefore; left |].
      rewrite (Hrest "downloads/clip_video.mp4").
      * reflexivity.
      * discriminate.
      * intros Hin. apply list_elem_of_singleton in Hin. discriminate Hin.
Defined.

End ViewsSpec.

(** ** The downloader *)

Module DownloaderSpec.

Import Text TextFacts Views Downloader.

(** *** The URL check *)

Lemma lang_scheme (w : string) :
  Re.lang (Re.Opt (Re.Cat (Re.Lit "http")
                     (Re.Cat (Re.Opt (Re.Chr "s")) (Re.Lit "://")))) w
  ↔ w ∈ [""; "http://"; "https://"].
Proof.
  rewrite ReFacts.lang_opt, !elem_of_cons, elem_of_nil. split.
  - intros [->|(u & v & -> & Hu%ReFacts.lang_lit & Hv)%ReFacts.lang_cat_inv];
      [by left |].
    apply ReFacts.lang_cat_inv in Hv
      as (x & y & -> & Hx%ReFacts.lang_opt & Hy%ReFacts.lang_lit).
    subst u y. destruct Hx as [->|Hx%ReFacts.lang_chr_inv]; [auto |].
    subst x. auto.
  - intros [->|[->|[->|[]]]]; [by left | right | right].
    + apply (Re.lang_cat _ _ "http" "://"); [by apply ReFacts.lang_lit |].
      apply (Re.lang_cat _ _ "" "://"); [|by apply ReFacts.lang_lit].
      apply ReFacts.lang_opt. by left.
    + apply (Re.lang_cat _ _ "http" "s://"); [by apply ReFacts.lang_lit |].
      apply (Re.lang_cat _ _ "s" "://"); [|by apply ReFacts.lang_lit].
      apply ReFacts.lang_opt. right. constructor.
Qed.

Lemma lang_www (w : string) :
  Re.lang (Re.Opt (Re.Cat (Re.Lit "www") (Re.Chr "."))) w ↔ w ∈ [""; "www."].
Proof.
  rewrite ReFacts.lang_opt, !elem_of_cons, elem_of_nil. split.
  - intros [->|(u & v & -> & Hu%ReFacts.lang_lit
                & Hv%ReFacts.lang_chr_inv)%ReFacts.lang_cat_inv]; [auto |].
    subst u v. auto.
  - intros [->|[->|[]]]; [by left | right].
    apply (Re.lang_cat _ _ "www" ".");
      [by apply ReFacts.lang_lit | constructor].
Qed.

Lemma lang_either (a b w : string) :
  Re.lang (Re.Alt (Re.Lit a) (Re.Lit b)) w ↔ w ∈ [a; b].
Proof.
  rewrite !elem_of_cons, elem_of_nil. split.
  - intros [Hw%ReFacts.lang_lit|Hw%ReFacts.lang_lit]%ReFacts.lang_alt_inv;
      auto.
  - intros [->|[->|[]]];
      [apply Re.lang_alt_l | apply Re.lang_alt_r]; by apply ReFacts.lang_lit.
Qed.

(** The check accepts exactly the URLs of the shape spelled out. *)
Lemma is_youtube_url_shape (url : string) :
  is_youtube_url url = true ↔ youtube_shape url.
Proof.
  unfold is_youtube_url, youtube_shape, youtube_regex.
  rewrite ReFacts.re_match_lang. split.
  - intros (u & v & -> & Hu).
    apply ReFacts.lang_cat_inv in Hu
      as (scheme & u1 & -> & Hs%lang_scheme & Hu).
    apply ReFacts.lang_cat_inv in Hu as (www & u2 & -> & Hw%lang_www & Hu).
    apply ReFacts.lang_cat_inv in Hu as (name & u3 & -> & Hn%lang_either & Hu).
    apply ReFacts.lang_cat_inv in Hu
      as (dot & u4 & -> & Hdot%ReFacts.lang_chr_inv & Hu).
    apply ReFacts.lang_cat_inv in Hu as (tld & u5 & -> & Ht%lang_either & Hu).
    apply ReFacts.lang_cat_inv in Hu
      as (slash & u6 & -> & Hslash%ReFacts.lang_chr_inv & Hu).
    apply ReFacts.lang_plus_dot_head in Hu as (c & rest & Hc & ->).
    subst dot slash. exists scheme, www, name, tld, c, (rest +:+ v).
    split_and!; [done..|]. by rewrite !append_assoc.
  - intros (scheme & www & name & tld & c & rest & Hs & Hw & Hn & Ht & Hc & ->).
    exists (scheme +:+ www +:+ name +:+ "." +:+ tld +:+ "/" +:+ String c ""),
      rest.
    split; [by rewrite !append_assoc |].
    apply Re.lang_cat; [by apply lang_scheme |].
    apply Re.lang_cat; [by apply lang_www |].
    apply Re.lang_cat; [by apply lang_either |].
    apply (Re.lang_cat _ _ "."); [constructor |].
    apply Re.lang_cat; [by apply lang_either |].
    apply (Re.lang_cat _ _ "/"); [constructor |].
    by apply ReFacts.lang_plus_dot_one.
Qed.

(** *** The quality resolver *)

Lemma closest_loop_best (qualities : list string)
  (available : gmap string FormatRef) :
  closest_loop qualities "best" available
  = List.find (fun q => has_key q available) qualities.
Proof.
  induction qualities as [|q rest IH]; simpl; [done |].
  by destruct (has_key q available).
Qed.

Lemma closest_loop_other (qualities : list string) (requested : string)
  (available : gmap string FormatRef) :
  String.eqb requested "best" = false →
  closest_loop qualities requested available = None.
Proof.
  intros Hb. induction qualities as [|q rest IH]; simpl; [done |].
  rewrite Hb. by destruct (has_key q available).
Qed.

Lemma worst_loop_find (qualities : list string)
  (available : gmap string FormatRef) :
  worst_loop qualities available
  = List.find (fun q => has_key q available) qualities.
Proof.
  induction qualities as [|q rest IH]; simpl; [done |].
  by destruct (has_key q available).
Qed.

(** C1. The resolver computes the four steps of the specification, for
    every map and every requested string: the requested string when it
    is a key; else, for "best", the first key present going down the
    preference list; else, for "worst", the first key present going up
    the list; else nothing. *)
Theorem find_best_quality_match_four_steps (requested : string)
  (available : gmap string FormatRef) :
  _find_best_quality_match requested available
  = quality_match_spec requested available.
Proof.
  unfold _find_best_quality_match, quality_match_spec.
  destruct (has_key requested available); [done |].
  destruct (String.eqb requested "best") eqn:Hb.
  - apply String.eqb_eq in Hb as ->. rewrite closest_loop_best.
    by destruct (List.find _ quality_preference).
  - rewrite (closest_loop_other _ _ _ Hb).
    destruct (String.eqb requested "worst"); [|done].
    apply worst_loop_find.
Qed.

(** The map of the example of the specification: 720p, 480p and 360p. *)
Example best_of_three :
  let available : gmap string FormatRef :=
    <["720p" := {| ref_id := "136"; ref_type := video |}]>
    (<["480p" := {| ref_id := "135"; ref_type := video |}]>
    (<["360p" := {| ref_id := "134"; ref_type := video |}]> ∅)) in
  _find_best_quality_match "best" available = Some "720p"
  ∧ _find_best_quality_match "worst" available = Some "360p"
  ∧ _find_best_quality_match "480p" available = Some "480p"
  ∧ _find_best_quality_match "1080p" available = None.
Proof. by vm_compute. Qed.

(** What the resolver returns is a key of the map. *)
Lemma find_best_quality_match_key (requested selected : string)
  (available : gmap string FormatRef) :
  _find_best_quality_match requested available = Some selected →
  is_Some (available !! selected).
Proof.
  unfold _find_best_quality_match.
  destruct (has_key requested available) eqn:Hk.
  - intros [= <-]. by apply bool_decide_eq_true in Hk.
  - destruct (closest_loop _ _ _) as [q|] eqn:Hc.
    + intros [= <-].
      destruct (String.eqb requested "best") eqn:Hb.
      * apply String.eqb_eq in Hb as ->. rewrite closest_loop_best in Hc.
        apply List.find_some in Hc as [_ Hq].
        by apply bool_decide_eq_true in Hq.
      * by rewrite closest_loop_other in Hc.
    + destruct (String.eqb requested "worst"); [|done].
      rewrite worst_loop_find. intros [_ Hq]%List.find_some.
      by apply bool_decide_eq_true in Hq.
Qed.

(** *** The quality map *)

Lemma height_label_canonical (h : Z) (label : string) :
  height_label (Some h) = Some label ↔ (h, label) ∈ canonical_heights.
Proof.
  unfold height_label, canonical_heights. split.
  - repeat case_decide; intros; simplify_eq; set_solver.
  - rewrite !elem_of_cons, elem_of_nil.
    intros [?|[?|[?|[?|[?|[?|[]]]]]]]; by simplify_eq.
Qed.

Lemma height_label_none (h : Z) :
  height_label (Some h) = None ↔ h ∉ canonical_heights.*1.
Proof.
  unfold height_label, canonical_heights. cbn [fmap list_fmap fst]. split.
  - repeat case_decide; try done. intros _.
    rewrite !not_elem_of_cons. split_and!; try congruence. apply not_elem_of_nil.
  - rewrite !not_elem_of_cons. intros (? & ? & ? & ? & ? & ? & _).
    repeat case_decide; congruence.
Qed.

(** The label under which the loop files a format. *)
Lemma resolution_of_labelled (f : format) (label : string) :
  resolution_of f = Some label ∧ label ≠ "" ↔ labelled f label.
Proof.
  unfold resolution_of, labelled. split.
  - intros [Hr Hne]. destruct (height f) as [| |h] eqn:Hh; simpl in Hr.
    + right. split_and!; [done | | done].
      destruct (format_note f); simpl in Hr; by simplify_eq.
    + right. split_and!; [done | | done].
      destruct (format_note f); simpl in Hr; by simplify_eq.
    + destruct (height_label (Some h)) as [l|] eqn:Hl.
      * left. exists h. split; [done |]. apply height_label_canonical.
        by simplify_eq.
      * right. split_and!; [| | done].
        -- intros h' [= <-]. by apply height_label_none.
        -- destruct (format_note f); simpl in Hr; by simplify_eq.
  - intros [(h & Hh & Hc)|(Hh & Hn & Hne)].
    + rewrite Hh. simpl. apply height_label_canonical in Hc as Hl. rewrite Hl.
      split; [done |]. unfold canonical_heights in Hc.
      rewrite !elem_of_cons, elem_of_nil in Hc.
      destruct Hc as [?|[?|[?|[?|[?|[?|[]]]]]]]; by simplify_eq.
    + rewrite Hn. simpl. split; [|done].
      destruct (height f) as [| |h]; simpl; [done | done |].
      by rewrite (proj2 (height_label_none h) (Hh h eq_refl)).
Qed.

(** What one turn of the loop does to the map. *)
Lemma add_format_inv (acc acc' : gmap string FormatRef) (f : format) :
  add_format acc f = Return acc' →
  (acc' = acc ∧ ∀ label, ¬ (resolution_of f = Some label ∧ label ≠ ""))
  ∨ (∃ label codec,
       resolution_of f = Some label ∧ label ≠ ""
       ∧ dict_get (acodec f) "none" = Some codec
       ∧ acc' = <[label := {| ref_id := format_id f;
                              ref_type := if contains "audio" codec
                                          then progressive else video |}]> acc).
Proof.
  unfold add_format. destruct (resolution_of f) as [[|c r]|] eqn:Hr.
  - intros [= <-]. left. split; [done |]. intros label [[= <-] Hne]. done.
  - destruct (dict_get (acodec f) "none") as [codec|] eqn:Hc; [|done].
    intros Hacc. right. exists (String c r), codec. split_and!; [done..|].
    destruct (contains "audio" codec); by simplify_eq.
  - intros [= <-]. left. split; [done |]. by intros label [? _].
Qed.

Lemma add_formats_keys (fs : list format) (acc m : gmap string FormatRef) :
  add_formats fs acc = Return m →
  ∀ label, is_Some (m !! label)
           ↔ is_Some (acc !! label) ∨ ∃ f, f ∈ fs ∧ labelled f label.
Proof.
  revert acc. induction fs as [|f fs IH]; intros acc; simpl.
  - intros [= <-] label. split; [by left |].
    intros [?|(f & Hf & _)]; [done | by apply elem_of_nil in Hf].
  - destruct (add_format acc f) as [acc'|] eqn:Hf; [|done]. simpl.
    intros Hm label. rewrite (IH acc' Hm label).
    apply add_format_inv in Hf as [[-> Hnone]|(l & codec & Hr & Hne & _ & ->)].
    + split.
      * intros [?|(g & Hg & Hl)]; [by left |]. right. exists g.
        split; [by right | done].
      * intros [?|(g & [->|Hg]%elem_of_cons & Hl)]; [by left | |].
        -- by apply resolution_of_labelled, Hnone in Hl.
        -- right. eauto.
    + rewrite lookup_insert_is_Some. split.
      * intros [[<-|[_ ?]]|(g & Hg & Hl)].
        -- right. exists f. split; [by left |].
           by apply resolution_of_labelled.
        -- by left.
        -- right. exists g. split; [by right | done].
      * intros [Hacc|(g & [->|Hg]%elem_of_cons & Hl)].
        -- left. destruct (decide (l = label)); [by left | by right].
        -- left. left. apply resolution_of_labelled in Hl as [Hl _].
           by simplify_eq.
        -- right. eauto.
Qed.

(** Every entry of the map comes from a format of the list, filed under
    its label; its kind is [progressive] exactly when the codec field of
    that format holds the word "audio". *)
Lemma add_formats_entry (fs : list format) (acc m : gmap string FormatRef)
  (label : string) (r : FormatRef) :
  add_formats fs acc = Return m →
  m !! label = Some r →
  acc !! label = Some r
  ∨ ∃ f codec,
      f ∈ fs ∧ labelled f label
      ∧ dict_get (acodec f) "none" = Some codec
      ∧ r = {| ref_id := format_id f;
               ref_type := if contains "audio" codec
                           then progressive else video |}.
Proof.
  revert acc. induction fs as [|f fs IH]; intros acc; simpl.
  - intros [= <-] ?. by left.
  - destruct (add_format acc f) as [acc'|] eqn:Hf; [|done]. simpl.
    intros Hm Hr. destruct (IH acc' Hm Hr) as [Hacc|(g & codec & Hg & Hrest)].
    + apply add_format_inv in Hf
        as [[-> _]|(l & codec & Hl & Hne & Hc & ->)]; [by left |].
      apply lookup_insert_Some in Hacc as [[<- <-]|[_ ?]]; [|by left].
      right. exists f, codec. split_and!; [by left | | done | done].
      by apply resolution_of_labelled.
    + right. exists g, codec. split; [by right | done].
Qed.

Section Metadata.
Context {World : Type} `{Engine World}.

(** What [get_video_info] returns when it returns a map, and the one call
    it makes. *)
Lemma get_video_info_inv (url : string) (st st' : state World)
  (vi : video_info) (av : gmap string FormatRef) (full : info) :
  get_video_info url st = (Some (vi, av, full), st') →
  add_formats (formats full) ∅ = Return av
  ∧ vi = make_video_info full
  ∧ (extract_info url (world st)).1 = ExtractInfo full
  ∧ st' = {| world := (extract_info url (world st)).2;
             calls := calls st ++ [CallExtract url] |}.
Proof.
  unfold get_video_info, mbind, perform, ret.
  destruct (extract_info url (world st)) as [[msg| |i] w]; [done | done |].
  destruct (add_formats (formats i) ∅) as [m|] eqn:Hm; [|done].
  intros [= <- <- <- <-]. done.
Qed.

(** C3, amended. The keys of the map are the labels of the formats of
    the list: a height is turned into a label only when it is exactly one
    of 2160, 1440, 1080, 720, 480 and 360; a format of another height is
    filed under its own note when that is a string that is not empty, and
    is dropped only when it has no such note. No height is moved to a
    label nearby. *)
Theorem get_video_info_labels (url : string) (st st' : state World)
  (vi : video_info) (av : gmap string FormatRef) (full : info) :
  get_video_info url st = (Some (vi, av, full), st') →
  ∀ label, is_Some (av !! label) ↔ ∃ f, f ∈ formats full ∧ labelled f label.
Proof.
  intros (Hav & _)%get_video_info_inv label.
  rewrite (add_formats_keys _ _ _ Hav label), lookup_empty.
  split; [intros [[? ?]|?]; done | by right].
Qed.

End Metadata.

Lemma get_video_info_labels_witness :
  is_Some
    ((<["720p" := {| ref_id := "22"; ref_type := video |}]>
      (<["240p" := {| ref_id := "133"; ref_type := video |}]> ∅)
        : gmap string FormatRef) !! "240p")
  ↔ ∃ f, f ∈ [Samples.f22; Samples.f133; Samples.f_odd] ∧ labelled f "240p".
Proof.
  exact (get_video_info_labels
           (H := Samples.recording_engine
                   (Samples.with_formats
                      [Samples.f22; Samples.f133; Samples.f_odd]))
           Samples.watch_url Samples.start _ _ _ _ eq_refl "240p").
Defined.

(** C3, the claim as stated fails: a stream of height 240, which is none of
    the six, is not dropped; it is in the map under its note. *)
Lemma get_video_info_keeps_other_height :
  (get_video_info
     (H := Samples.recording_engine (Samples.with_formats [Samples.f133]))
     Samples.watch_url Samples.start).1
  = Some (make_video_info (Samples.with_formats [Samples.f133]),
          {["240p" := {| ref_id := "133"; ref_type := video |}]},
          Samples.with_formats [Samples.f133]).
Proof. by vm_compute. Qed.

(** C2, the code at the failing input: a stream with an AAC audio track is
    filed as [video], because its codec field, "mp4a.40.2", does not hold
    the word "audio"; the filter of the merge path, which tests the field
    against "none", takes the same stream for one that has audio. *)
Lemma get_video_info_files_audio_stream_as_video :
  (get_video_info
     (H := Samples.recording_engine (Samples.with_formats [Samples.f22]))
     Samples.watch_url Samples.start).1
  = Some (make_video_info (Samples.with_formats [Samples.f22]),
          {["720p" := {| ref_id := "22"; ref_type := video |}]},
          Samples.with_formats [Samples.f22])
  ∧ audio_candidate Samples.f22 = true.
Proof. by vm_compute. Qed.

(** *** The orchestrator *)

Lemma labelled_nonempty (f : format) (label : string) :
  labelled f label → label ≠ "".
Proof. by intros [_ ?]%resolution_of_labelled. Qed.

Lemma best_audio_of_none (fs : list format) :
  (∀ f, f ∈ fs → audio_candidate f = false) → best_audio_of fs = None.
Proof.
  intros Hfs. unfold best_audio_of.
  assert (List.filter audio_candidate fs = []) as ->; [|done].
  induction fs as [|f fs IH]; simpl; [done |].
  rewrite (Hfs f) by by left. apply IH. intros g Hg. apply Hfs. by right.
Qed.

Section Orchestration.
Context {World : Type} `{Engine World}.

(** A URL the check refuses: the result comes at once, and the state of
    the world and the list of calls are as they were. *)
Lemma download_video_invalid (url quality : string) (st : state World) :
  is_youtube_url url = false →
  download_video url quality st
  = (Return (Failure "Invalid YouTube URL!"), st).
Proof. intros Hu. unfold download_video. by rewrite Hu. Qed.

(** Past the checks, [download_video] is one of its two branches, run in
    the state the metadata query left. *)
Lemma download_video_dispatch (url quality : string) (st st1 : state World)
  (vi : video_info) (av : gmap string FormatRef) (full : info)
  (selected t : string) (format_info : FormatRef) :
  is_youtube_url url = true →
  get_video_info url st = (Some (vi, av, full), st1) →
  _find_best_quality_match quality av = Some selected →
  av !! selected = Some format_info →
  vi_title vi = Some t →
  download_video url quality st
  = match ref_type format_info with
    | progressive =>
        let (d, st2) :=
          _download_progressive url format_info (sanitize_filename t) st1 in
        (Return d, st2)
    | video =>
        let (d, st2) :=
          _download_and_merge url format_info (sanitize_filename t) full st1 in
        (Return d, st2)
    end.
Proof.
  intros Hu Hg Hq Hf Ht.
  assert (selected ≠ "") as Hne.
  { apply get_video_info_inv in Hg as Hav. destruct Hav as [Hav _].
    destruct (proj1 (add_formats_keys _ _ _ Hav selected) (mk_is_Some _ _ Hf))
      as [[? Hempty]|(f & _ & Hlab)].
    - by rewrite lookup_empty in Hempty.
    - by apply labelled_nonempty in Hlab. }
  unfold download_video, mbind. rewrite Hu. cbn [negb]. rewrite Hg.
  rewrite bool_decide_eq_false_2; [|by intros ->; rewrite lookup_empty in Hf].
  rewrite Hq. destruct selected as [|c r]; [done |].
  rewrite Hf, Ht. by destruct (ref_type format_info).
Qed.

Lemma download_and_merge_no_audio (url title : string)
  (format_info : FormatRef) (full : info) (st : state World) :
  best_audio_of (formats full) = None →
  _download_and_merge url format_info title full st
  = (Failure "No valid audio formats found!", st).
Proof. intros Hb. unfold _download_and_merge. by rewrite Hb. Qed.

Lemma download_progressive_ok (url title : string) (format_info : FormatRef)
  (st : state World) (w : World) :
  ydl_download (ref_id format_info) (in_download_folder (title +:+ ".mp4"))
    url (world st) = (None, w) →
  _download_progressive url format_info title st
  = (Success (in_download_folder (title +:+ ".mp4")) (title +:+ ".mp4") None,
     {| world := w;
        calls := calls st
                 ++ [CallDownload (ref_id format_info)
                       (in_download_folder (title +:+ ".mp4")) url] |}).
Proof.
  intros Hd. unfold _download_progressive, mbind, perform, ret. by rewrite Hd.
Qed.

(** C4, amended. In the video-only branch, when no format of the full
    list passes the filter of the audio candidates, [download_video]
    returns the failure "No valid audio formats found!" and no fetch has
    been made: the state is the one the metadata query left, whose only
    new call is that query. The audio check comes before the video
    fetch. *)
Theorem download_video_no_audio_fails_before_fetch
  (url quality : string) (st st1 : state World)
  (vi : video_info) (av : gmap string FormatRef) (full : info)
  (selected t : string) (format_info : FormatRef) :
  is_youtube_url url = true →
  get_video_info url st = (Some (vi, av, full), st1) →
  _find_best_quality_match quality av = Some selected →
  av !! selected = Some format_info →
  ref_type format_info = video →
  vi_title vi = Some t →
  (∀ f, f ∈ formats full → audio_candidate f = false) →
  download_video url quality st
  = (Return (Failure "No valid audio formats found!"), st1)
  ∧ calls st1 = (calls st ++ [CallExtract url])%list
  ∧ world st1 = (extract_info url (world st)).2.
Proof.
  intros Hu Hg Hq Hf Hk Ht Hnone. split.
  - rewrite (download_video_dispatch _ _ _ _ _ _ _ _ _ _ Hu Hg Hq Hf Ht), Hk.
    by rewrite download_and_merge_no_audio by by apply best_audio_of_none.
  - by apply get_video_info_inv in Hg as (_ & _ & _ & ->).
Qed.

(** C6. When the resolved entry is [progressive] and its one fetch
    succeeds, [download_video] returns a success whose file is
    [<title>.mp4] in the download directory, [<title>] being the sanitized
    title; the result has no [temp_files], so that the list the view reads
    from it is empty; and the fetch, aimed at that file, is the only call
    after the metadata query. *)
Theorem download_video_progressive_success
  (url quality : string) (st st1 : state World)
  (vi : video_info) (av : gmap string FormatRef) (full : info)
  (selected t : string) (format_info : FormatRef) (w : World) :
  is_youtube_url url = true →
  get_video_info url st = (Some (vi, av, full), st1) →
  _find_best_quality_match quality av = Some selected →
  av !! selected = Some format_info →
  ref_type format_info = progressive →
  vi_title vi = Some t →
  ydl_download (ref_id format_info)
    ("downloads/" +:+ sanitize_filename t +:+ ".mp4") url (world st1)
  = (None, w) →
  ∃ result,
    download_video url quality st
    = (Return result,
       {| world := w;
          calls := calls st1
                   ++ [CallDownload (ref_id format_info)
                         ("downloads/" +:+ sanitize_filename t +:+ ".mp4")
                         url] |})
    ∧ result = Success ("downloads/" +:+ sanitize_filename t +:+ ".mp4")
                 (sanitize_filename t +:+ ".mp4") None
    ∧ get_temp_files result = []
    ∧ respond result
      = ServeFile ("downloads/" +:+ sanitize_filename t +:+ ".mp4")
          (sanitize_filename t +:+ ".mp4") [].
Proof.
  intros Hu Hg Hq Hf Hk Ht Hd. eexists. split; [|done].
  rewrite (download_video_dispatch _ _ _ _ _ _ _ _ _ _ Hu Hg Hq Hf Ht), Hk.
  by rewrite (download_progressive_ok _ _ _ _ w).
Qed.

End Orchestration.

Lemma download_video_no_audio_fails_before_fetch_witness :
  download_video
    (H := Samples.recording_engine
            (Samples.with_formats [Samples.f137; Samples.f133]))
    Samples.watch_url "worst" Samples.start
  = (Return (Failure "No valid audio formats found!"),
     {| world := []; calls := [CallExtract Samples.watch_url] |}).
Proof.
  refine (proj1 (download_video_no_audio_fails_before_fetch
                   (H := Samples.recording_engine
                           (Samples.with_formats [Samples.f137; Samples.f133]))
                   Samples.watch_url "worst" Samples.start _ _ _ _ "240p"
                   "Big Buck Bunny: 60fps"
                   {| ref_id := "133"; ref_type := video |}
                   eq_refl eq_refl eq_refl eq_refl eq_refl eq_refl _)).
  intros f Hf. apply elem_of_cons in Hf as [->|Hf]; [reflexivity |].
  apply elem_of_cons in Hf as [->|Hf]; [reflexivity |].
  by apply elem_of_nil in Hf.
Defined.

(** C4, the claim as stated fails: a 1080p video-only stream is asked
    for and no format has audio. The failure comes with the metadata
    query as the only call made and with no file written: the video
    intermediate has not been fetched. *)
Lemma download_video_no_audio_fetches_nothing :
  download_video
    (H := Samples.recording_engine (Samples.with_formats [Samples.f137]))
    Samples.watch_url "1080p" Samples.start
  = (Return (Failure "No valid audio formats found!"),
     {| world := []; calls := [CallExtract Samples.watch_url] |}).
Proof. by vm_compute. Qed.

Lemma download_video_progressive_success_witness :
  ∃ result,
    download_video
      (H := Samples.recording_engine (Samples.with_formats [Samples.f18]))
      Samples.watch_url "best" Samples.start
    = (Return result,
       {| world := ["downloads/Big Buck Bunny 60fps.mp4"];
          calls := [CallExtract Samples.watch_url;
                    CallDownload "18" "downloads/Big Buck Bunny 60fps.mp4"
                      Samples.watch_url] |})
    ∧ result = Success "downloads/Big Buck Bunny 60fps.mp4"
                 "Big Buck Bunny 60fps.mp4" None
    ∧ get_temp_files result = []
    ∧ respond result
      = ServeFile "downloads/Big Buck Bunny 60fps.mp4"
          "Big Buck Bunny 60fps.mp4" [].
Proof.
  exact (download_video_progressive_success
           (H := Samples.recording_engine (Samples.with_formats [Samples.f18]))
           Samples.watch_url "best" Samples.start _ _ _ _ "360p"
           "Big Buck Bunny: 60fps"
           {| ref_id := "18"; ref_type := progressive |}
           ["downloads/Big Buck Bunny 60fps.mp4"]
           eq_refl eq_refl eq_refl eq_refl eq_refl eq_refl eq_refl).
Defined.

(** C10, the claim as stated fails in its last part: the check of the
    orchestrator is not stronger than the test of the classifier, for it
    accepts a URL that the classifier does not take for a youtube one. *)
Lemma is_youtube_url_accepts_unclassified_url :
  is_youtube_url "youtube.be/x" = true
  ∧ get_platform "youtube.be/x" = unknown.
Proof. by vm_compute. Qed.

(** C10, amended. There is a URL that the classifier labels [youtube],
    because it holds "youtube.com" in its path, and that the anchored check
    of the orchestrator refuses: for it [download_video] returns the failure
    "Invalid YouTube URL!" whatever the services are, and leaves the state
    untouched, so the extraction engine is not called. The check refuses
    URLs that the classifier accepts; it is not claimed to refuse all that
    the classifier refuses. *)
Theorem download_video_rejects_a_classified_url :
  ∃ url,
    get_platform url = youtube
    ∧ is_youtube_url url = false
    ∧ ∀ (World : Type) (E : Engine World) (quality : string)
        (st : state World),
        download_video url quality st
        = (Return (Failure "Invalid YouTube URL!"), st)
        ∧ respond (Failure "Invalid YouTube URL!")
          = JsonError "Invalid YouTube URL!" 400.
Proof.
  exists "https://example.com/youtube.com/watch".
  split; [done | split; [done |]].
  intros World E quality st. split; [|done].
  by apply download_video_invalid.
Qed.

End DownloaderSpec.

(** ** File names: the two sanitizers, the cleaner, the quoting *)

Module NamesSpec.

Import Text TextFacts Views.

Lemma all_chars_app (p : ascii → bool) (a b : string) :
  all_chars p (a +:+ b) = all_chars p a && all_chars p b.
Proof.
  induction a as [|x a IH]; [done |].
  change (p x && all_chars p (a +:+ b) = p x && all_chars p a && all_chars p b).
  by rewrite IH, andb_assoc.
Qed.

Lemma all_chars_map (p : ascii → bool) (f : ascii → ascii) (s : string) :
  (∀ c, p (f c) = true) → all_chars p (map_chars f s) = true.
Proof. intros Hf. induction s as [|c s IH]; simpl; [done | by rewrite Hf]. Qed.

Lemma all_chars_filter (p keep : ascii → bool) (s : string) :
  (∀ c, keep c = true → p c = true) →
  all_chars p (filter_chars keep s) = true.
Proof.
  intros Hk. induction s as [|c s IH]; simpl; [done |].
  destruct (keep c) eqn:Hc; [|done]. simpl. by rewrite (Hk c Hc).
Qed.

Lemma all_chars_filter_keeps (p keep : ascii → bool) (s : string) :
  all_chars p s = true → all_chars p (filter_chars keep s) = true.
Proof.
  induction s as [|c s IH]; simpl; [done |].
  intros [Hc Hs]%andb_true_iff. destruct (keep c); [|auto].
  simpl. rewrite Hc. auto.
Qed.

Lemma all_chars_lstrip (p : ascii → bool) (s : string) :
  all_chars p s = true → all_chars p (lstrip s) = true.
Proof.
  induction s as [|c s IH]; simpl; [done |].
  intros Hs. destruct (isspace c); [|done].
  apply andb_true_iff in Hs as [_ Hs]. auto.
Qed.

Lemma all_chars_rstrip (p : ascii → bool) (s : string) :
  all_chars p s = true → all_chars p (rstrip s) = true.
Proof.
  induction s as [|c s IH]; [done |].
  cbn [all_chars]. intros [Hc Hs]%andb_true_iff. cbn [rstrip].
  specialize (IH Hs). destruct (rstrip s) as [|d r].
  - destruct (isspace c); [done |]. simpl. by rewrite Hc.
  - change (p c && all_chars p (String d r) = true). by rewrite Hc.
Qed.

Lemma all_chars_strip (p : ascii → bool) (s : string) :
  all_chars p s = true → all_chars p (strip s) = true.
Proof. intros Hs. by apply all_chars_rstrip, all_chars_lstrip. Qed.

Lemma length_map_chars (f : ascii → ascii) (s : string) :
  String.length (map_chars f s) = String.length s.
Proof. induction s as [|c s IH]; simpl; [done | by rewrite IH]. Qed.

Lemma length_lstrip (s : string) :
  (String.length (lstrip s) ≤ String.length s)%nat.
Proof.
  induction s as [|c s IH]; simpl; [done |].
  destruct (isspace c); simpl; lia.
Qed.

Lemma lstrip_idem (s : string) : lstrip (lstrip s) = lstrip s.
Proof.
  induction s as [|c s IH]; simpl; [done |].
  destruct (isspace c) eqn:Hc; [done |]. simpl. by rewrite Hc.
Qed.

Lemma rstrip_idem (s : string) : rstrip (rstrip s) = rstrip s.
Proof.
  induction s as [|c s IH]; [done |]. cbn [rstrip].
  destruct (rstrip s) as [|d r] eqn:Hr.
  - destruct (isspace c) eqn:Hc; [done |]. simpl. by rewrite Hc.
  - cbn [rstrip]. cbn [rstrip] in IH. by rewrite IH.
Qed.

(** Stripping the end leaves a start that was stripped as it is. *)
Lemma lstrip_rstrip (s : string) :
  lstrip s = s → lstrip (rstrip s) = rstrip s.
Proof.
  destruct s as [|c s]; [done |]. intros Hl.
  assert (isspace c = false) as Hc.
  { destruct (isspace c) eqn:Hc; [|done]. simpl in Hl. rewrite Hc in Hl.
    pose proof (length_lstrip s) as Hlen. rewrite Hl in Hlen. simpl in Hlen.
    lia. }
  cbn [rstrip]. destruct (rstrip s); rewrite ?Hc; simpl; by rewrite Hc.
Qed.

Lemma lstrip_strip (s : string) : lstrip (strip s) = strip s.
Proof. apply lstrip_rstrip, lstrip_idem. Qed.

Lemma rstrip_strip (s : string) : rstrip (strip s) = strip s.
Proof. apply rstrip_idem. Qed.

Lemma strip_idem (s : string) : strip (strip s) = strip s.
Proof. unfold strip at 1. by rewrite lstrip_strip, rstrip_strip. Qed.

Lemma underscore_legal : illegal_char underscore = false.
Proof. done. Qed.

(** X1. The sanitizer of the views keeps the length of a name, leaves
    no illegal character in it, and changes nothing when it is applied a
    second time. *)
Theorem views_sanitize_filename_legal (name : string) :
  all_chars (fun c => negb (illegal_char c)) (Views.sanitize_filename name)
  = true
  ∧ String.length (Views.sanitize_filename name) = String.length name
  ∧ Views.sanitize_filename (Views.sanitize_filename name)
    = Views.sanitize_filename name.
Proof.
  unfold Views.sanitize_filename, replace_illegal. split_and!.
  - apply all_chars_map. intros c.
    destruct (illegal_char c) eqn:Hc; by rewrite ?underscore_legal, ?Hc.
  - apply length_map_chars.
  - apply map_chars_id, all_chars_map. intros c. apply bool_decide_eq_true.
    destruct (illegal_char c) eqn:Hc; by rewrite ?underscore_legal, ?Hc.
Qed.

(** X2. The sanitizer of the downloader returns a title without any of
    the characters it removes, the slash and the backslash among them, and
    without white space at either end; applied to its own result it
    changes nothing. *)
Theorem downloader_sanitize_filename_clean (filename : string) :
  all_chars (fun c => negb (Downloader.invalid_char c))
    (Downloader.sanitize_filename filename) = true
  ∧ lstrip (Downloader.sanitize_filename filename)
    = Downloader.sanitize_filename filename
  ∧ rstrip (Downloader.sanitize_filename filename)
    = Downloader.sanitize_filename filename
  ∧ Downloader.sanitize_filename (Downloader.sanitize_filename filename)
    = Downloader.sanitize_filename filename.
Proof.
  unfold Downloader.sanitize_filename.
  assert (all_chars (fun c => negb (Downloader.invalid_char c))
            (strip (filter_chars (fun c => negb (Downloader.invalid_char c))
                      filename)) = true) as Hvalid.
  { by apply all_chars_strip, all_chars_filter. }
  split_and!; [done | apply lstrip_strip | apply rstrip_strip |].
  rewrite (filter_chars_id _ _ Hvalid). apply strip_idem.
Qed.

Section CleanerInvariant.
Context `{Codecs}.

Lemma replace_illegal_legal (s : string) :
  all_chars (fun c => negb (illegal_char c)) (replace_illegal s) = true.
Proof.
  apply all_chars_map. intros c.
  destruct (illegal_char c) eqn:Hc; by rewrite ?underscore_legal, ?Hc.
Qed.

Lemma cleaned_name_legal (s : string) (ascii_only : bool) :
  all_chars (fun c => negb (illegal_char c)) (cleaned_name s ascii_only) = true.
Proof.
  unfold cleaned_name. apply all_chars_strip.
  destruct ascii_only; [apply all_chars_filter_keeps |];
    apply replace_illegal_legal.
Qed.

Lemma cleaned_name_ascii (s : string) :
  isascii (cleaned_name s true) = true.
Proof. unfold cleaned_name. by apply all_chars_strip, all_chars_filter. Qed.

(** X3. Whatever the name and whatever the decoders return, the cleaned
    filename holds no illegal character and starts with no white space;
    with [ascii_only] it is pure ASCII. *)
Theorem clean_filename_header_safe (s : string) (ascii_only : bool) :
  all_chars (fun c => negb (illegal_char c)) (clean_filename s ascii_only)
  = true
  ∧ lstrip (clean_filename s ascii_only) = clean_filename s ascii_only
  ∧ isascii (clean_filename s true) = true.
Proof.
  unfold clean_filename. split_and!.
  - destruct (endswith mp4 (lower (cleaned_name s ascii_only)));
      rewrite ?all_chars_app, cleaned_name_legal; done.
  - unfold cleaned_name. set (n := strip _).
    assert (lstrip n = n) as Hn by apply lstrip_strip.
    destruct (endswith mp4 (lower n)); [done |].
    destruct n as [|c n]; [done |]. simpl in Hn |- *.
    destruct (isspace c) eqn:Hc; [|done].
    pose proof (length_lstrip n) as Hlen. rewrite Hn in Hlen. simpl in Hlen.
    lia.
  - destruct (endswith mp4 (lower (cleaned_name s true)));
      unfold isascii; rewrite ?all_chars_app; fold isascii;
      rewrite cleaned_name_ascii; done.
Qed.

End CleanerInvariant.

Lemma hex_digit_safe (n : nat) : always_safe (hex_digit n) = true.
Proof. do 17 (destruct n as [|n]; [done |]). done. Qed.

Lemma percent_safe (b : nat) :
  all_chars (fun c => always_safe c || Ascii.eqb c slash || Ascii.eqb c "%")
    (percent b) = true.
Proof. unfold percent. simpl. by rewrite !hex_digit_safe. Qed.

Lemma quote_safe (s : string) :
  all_chars (fun c => always_safe c || Ascii.eqb c slash || Ascii.eqb c "%")
    (quote s) = true.
Proof.
  induction s as [|c s IH]; [done |].
  cbn [quote]. rewrite all_chars_app, IH, andb_true_r.
  unfold quote_char. destruct (always_safe c || Ascii.eqb c slash) eqn:Hc.
  - simpl. by rewrite Hc.
  - unfold utf8. destruct (nat_of_ascii c <? 128)%nat; cbn [fmap list_fmap];
      simpl; by rewrite !hex_digit_safe.
Qed.

Lemma safe_is_no_newline (c : ascii) :
  always_safe c || Ascii.eqb c slash || Ascii.eqb c "%" = true →
  negb (Ascii.eqb c Re.line_feed || Ascii.eqb c carriage_return) = true.
Proof. destruct c as [[] [] [] [] [] [] [] []]; done. Qed.

(** The Content-Disposition value never holds a line feed or a carriage
    return, so that setting it never raises. *)
Lemma disposition_header_value (s : string) :
  header_value ("attachment; filename*=UTF-8''" +:+ quote s)
  = Return ("attachment; filename*=UTF-8''" +:+ quote s).
Proof.
  unfold header_value.
  assert (newline_free ("attachment; filename*=UTF-8''" +:+ quote s) = true)
    as ->; [|done].
  unfold newline_free. rewrite all_chars_app. apply andb_true_iff.
  split; [done |].
  eapply all_chars_impl; [apply safe_is_no_newline | apply quote_safe].
Qed.

(** X4. Whatever the filename, the Content-Disposition header of a
    served response is the fixed text [attachment; filename*=UTF-8''] and
    then only letters, digits, the marks [_.-~], slashes and percent signs:
    the name part holds no space, quote, semicolon, control or non-ASCII
    character. *)
Theorem serve_file_disposition_is_safe `{Codecs}
  (guess_type : string → option string) (file_path filename : string)
  (temp_files : option (list string)) (ascii_safe : bool) (fs : filesystem)
  (response : StreamingHttpResponse) :
  serve_file guess_type file_path filename temp_files ascii_safe fs
  = Return response →
  ∃ quoted,
    content_disposition response = "attachment; filename*=UTF-8''" +:+ quoted
    ∧ all_chars
        (fun c => always_safe c || Ascii.eqb c slash || Ascii.eqb c "%")
        quoted = true.
Proof.
  unfold serve_file. destruct (os_path_getsize file_path fs); [|done].
  cbn [bind]. destruct (header_value (content_type_of _)); [|done].
  cbn [bind]. rewrite disposition_header_value. cbn [bind].
  destruct (header_value (clean_filename _ _)); [|done].
  intros [= <-]. eexists. split; [reflexivity | apply quote_safe].
Qed.

Lemma serve_file_disposition_is_safe_witness :
  ∃ quoted,
    "attachment; filename*=UTF-8''My%20Video_.mp4"
    = "attachment; filename*=UTF-8''" +:+ quoted
    ∧ all_chars
        (fun c => always_safe c || Ascii.eqb c slash || Ascii.eqb c "%")
        quoted = true.
Proof.
  exact (serve_file_disposition_is_safe (H := no_codecs) (fun _ => None)
           "downloads/clip.mp4" "My Video?.mp4" None true
           Samples.removable_files
           {| content_type := "video/mp4";
              content_disposition :=
                "attachment; filename*=UTF-8''My%20Video_.mp4";
              content_length := 3;
              x_filename := "My Video_.mp4";
              streaming_content :=
                file_iterator None "downloads/clip.mp4" default_chunk_size |}
           eq_refl).
Defined.

End NamesSpec.

(** ** The file server: chunks, cleanup, response *)

Module ServerSpec.

Import Text TextFacts Views ViewsSpec.

Lemma read_chunks_nil (fuel chunk_size : nat) :
  read_chunks fuel chunk_size [] = [].
Proof. destruct fuel; [done |]. cbn [read_chunks]. by rewrite take_nil. Qed.

Lemma read_chunks_cons (fuel chunk_size : nat) (b : Byte.byte) (data : bytes) :
  (0 < chunk_size)%nat →
  read_chunks (S fuel) chunk_size (b :: data)
  = take chunk_size (b :: data)
    :: read_chunks fuel chunk_size (drop chunk_size (b :: data)).
Proof.
  intros Hn. cbn [read_chunks]. destruct chunk_size; [lia | done].
Qed.

Lemma read_chunks_bounds (fuel chunk_size : nat) (data : bytes)
  (i : nat) (chunk : bytes) :
  (0 < chunk_size)%nat →
  (length data < fuel)%nat →
  read_chunks fuel chunk_size data !! i = Some chunk →
  (0 < length chunk ≤ chunk_size)%nat
  ∧ ((S i < length (read_chunks fuel chunk_size data))%nat →
     length chunk = chunk_size).
Proof.
  intros Hn. revert data i.
  induction fuel as [|fuel IH]; intros data i Hf Hi; [lia |].
  destruct data as [|b data]; [by rewrite read_chunks_nil in Hi |].
  rewrite read_chunks_cons in Hi |- * by done.
  destruct i as [|i].
  - injection Hi as <-. rewrite length_take. simpl length. split; [lia |].
    intros Hmore.
    destruct (drop chunk_size (b :: data)) as [|d rest] eqn:Hd.
    + rewrite read_chunks_nil in Hmore. simpl in Hmore. lia.
    + assert (length (drop chunk_size (b :: data)) ≠ 0)%nat as Hlen
        by by rewrite Hd.
      rewrite length_drop in Hlen. simpl in Hlen. lia.
  - cbn [lookup list_lookup] in Hi.
    destruct (IH (drop chunk_size (b :: data)) i) as [Hsize Hfull].
    + rewrite length_drop. simpl in Hf |- *. lia.
    + exact Hi.
    + split; [done |]. intros Hmore. apply Hfull. simpl in Hmore. lia.
Qed.

(** X5. With a positive chunk size, no chunk that is read is empty or
    longer than the chunk size, and every chunk but the last has exactly
    the chunk size. *)
Theorem read_chunks_sizes (fuel chunk_size : nat) (data : bytes)
  (i : nat) (chunk : bytes) :
  (0 < chunk_size)%nat →
  (length data < fuel)%nat →
  read_chunks fuel chunk_size data !! i = Some chunk →
  (0 < length chunk ≤ chunk_size)%nat
  ∧ ((S i < length (read_chunks fuel chunk_size data))%nat →
     length chunk = chunk_size).
Proof. apply read_chunks_bounds. Qed.

Lemma read_chunks_sizes_witness :
  (0 < length [Byte.x01; Byte.x02] ≤ 2)%nat
  ∧ ((1 < length (read_chunks 6 2
                    [Byte.x01; Byte.x02; Byte.x03; Byte.x04; Byte.x05]))%nat →
     length [Byte.x01; Byte.x02] = 2%nat).
Proof.
  apply (read_chunks_sizes 6 2
           [Byte.x01; Byte.x02; Byte.x03; Byte.x04; Byte.x05] 0
           [Byte.x01; Byte.x02]); [lia | simpl; lia | reflexivity].
Defined.

Lemma os_remove_effect (path : string) (fs : filesystem) :
  locked (os_remove path fs).1 = locked fs
  ∧ ∀ q, files (os_remove path fs).1 !! q = files fs !! q
         ∨ (files (os_remove path fs).1 !! q = None ∧ q = path).
Proof.
  unfold os_remove. destruct (files fs !! path) eqn:Hp; [|by split; [|left]].
  case_bool_decide; [by split; [|left] |]. simpl. split; [done |].
  intros q. destruct (decide (q = path)) as [->|Hq].
  - right. by rewrite lookup_delete_eq.
  - left. by rewrite lookup_delete_ne.
Qed.

Lemma remove_temp_files_effect (temp_files : list string) (fs : filesystem) :
  locked (remove_temp_files temp_files fs).1 = locked fs
  ∧ ∀ q, files (remove_temp_files temp_files fs).1 !! q = files fs !! q
         ∨ (files (remove_temp_files temp_files fs).1 !! q = None
            ∧ q ∈ temp_files).
Proof.
  revert fs. induction temp_files as [|t rest IH]; intros fs; simpl.
  - by split; [|left].
  - destruct (os_path_exists t fs).
    + destruct (os_remove_effect t fs) as [Hl Hq].
      destruct (os_remove t fs) as [fs1 [[]|e]]; simpl in Hl, Hq.
      * destruct (IH fs1) as [Hl' Hq']. split; [congruence |].
        intros q. destruct (Hq' q) as [Hsame|[Hnone Hin]].
        -- rewrite Hsame. destruct (Hq q) as [?|[? ->]]; [by left |].
           right. split; [done | by left].
        -- right. split; [done | by right].
      * simpl. split; [done |]. intros q.
        destruct (Hq q) as [?|[? ->]]; [by left | right].
        split; [done | by left].
    + destruct (IH fs) as [Hl Hq]. split; [done |].
      intros q. destruct (Hq q) as [?|[? ?]]; [by left | right].
      split; [done | by right].
Qed.

Lemma cleanup_body_effect (path : string) (temp_files : option (list string))
  (fs : filesystem) :
  locked (cleanup_body path temp_files fs).1 = locked fs
  ∧ ∀ q, files (cleanup_body path temp_files fs).1 !! q = files fs !! q
         ∨ (files (cleanup_body path temp_files fs).1 !! q = None
            ∧ (q = path ∨ q ∈ default [] temp_files)).
Proof.
  unfold cleanup_body. destruct (os_remove_effect path fs) as [Hl Hq].
  destruct (os_remove path fs) as [fs1 [[]|e]]; simpl in Hl, Hq.
  - assert (locked (remove_temp_files (default [] temp_files) fs1).1
            = locked fs
            ∧ ∀ q, files (remove_temp_files (default [] temp_files) fs1).1 !! q
                   = files fs !! q
                   ∨ (files (remove_temp_files (default [] temp_files) fs1).1
                        !! q = None
                      ∧ (q = path ∨ q ∈ default [] temp_files))) as Hall.
    { destruct (remove_temp_files_effect (default [] temp_files) fs1)
        as [Hl' Hq'].
      split; [congruence |]. intros q.
      destruct (Hq' q) as [Hsame|[Hnone Hin]].
      - rewrite Hsame. destruct (Hq q) as [?|[? ->]]; [by left |].
        right. split; [done | by left].
      - right. split; [done | by right]. }
    by destruct temp_files as [[|t ts]|].
  - simpl. split; [done |]. intros q.
    destruct (Hq q) as [?|[? ->]]; [by left | right]. split; [done | by left].
Qed.

(** X6. Streaming a file to its end never creates a file and never
    removes one that is neither the source nor listed in [temp_files]:
    every path is either left as it was, or removed and one of those; the
    set of paths that cannot be removed stays the same. *)
Theorem file_iterator_touches_only_listed_files
  (temp_files : option (list string)) (path : string) (chunk_size : nat)
  (fs : filesystem) :
  locked (file_iterator temp_files path chunk_size fs).1 = locked fs
  ∧ ∀ q,
      files (file_iterator temp_files path chunk_size fs).1 !! q
      = files fs !! q
      ∨ (files (file_iterator temp_files path chunk_size fs).1 !! q = None
         ∧ (q = path ∨ q ∈ default [] temp_files)).
Proof.
  unfold file_iterator. destruct (files fs !! path) eqn:Hp;
    [|by split; [|left]].
  rewrite cleanup_eq. simpl. apply cleanup_body_effect.
Qed.

Section Response.
Context `{Codecs} (guess_type : string → option string).

(** X7. When the file is there and the content type holds no line
    feed or carriage return, [serve_file] does one of two things. If the
    cleaned filename holds no line feed or carriage return either, it
    answers with a response whose Content-Length is the size of the file;
    streamed to its end on the same files, its body is the content of the
    file, so that the number of bytes sent is the Content-Length, in chunks
    of at most 8192 bytes; the display name of the response is the cleaned
    filename. If the cleaned filename keeps a line feed or a carriage
    return, setting the X-Filename header raises [BadHeaderError]: there is
    no response, nothing is streamed and nothing is removed. *)
Theorem serve_file_length_is_streamed_length
  (file_path filename : string) (temp_files : option (list string))
  (ascii_safe : bool) (fs : filesystem) (data : bytes) :
  files fs !! file_path = Some data →
  newline_free (content_type_of (guess_type file_path)) = true →
  (newline_free (clean_filename filename ascii_safe) = true →
   ∃ response fs' chunks,
     serve_file guess_type file_path filename temp_files ascii_safe fs
     = Return response
     ∧ streaming_content response fs = (fs', Return chunks)
     ∧ mjoin chunks = data
     ∧ content_length response = length (mjoin chunks)
     ∧ Forall (fun chunk => (length chunk ≤ default_chunk_size)%nat) chunks
     ∧ x_filename response = clean_filename filename ascii_safe)
  ∧ (newline_free (clean_filename filename ascii_safe) = false →
     serve_file guess_type file_path filename temp_files ascii_safe fs
     = Raise (Exception "BadHeaderError")).
Proof.
  intros Hf Hct. unfold serve_file, os_path_getsize. rewrite Hf. cbn [bind].
  assert (header_value (content_type_of (guess_type file_path))
          = Return (content_type_of (guess_type file_path))) as Hh.
  { unfold header_value. by rewrite Hct. }
  rewrite !Hh. cbn [bind].
  rewrite !NamesSpec.disposition_header_value. cbn [bind].
  unfold header_value. split; intros Hname; rewrite Hname; cbn [bind]; [|done].
  eexists _, _, _. split; [reflexivity |]. cbn.
  unfold file_iterator. rewrite Hf, cleanup_eq.
  split; [reflexivity |].
  assert (mjoin (read_chunks (S (length data)) default_chunk_size data) = data)
    as Hwhole.
  { apply read_chunks_whole; [|lia]. apply Nat.ltb_lt. by vm_compute. }
  split_and!; [done | by rewrite Hwhole | | done].
  apply Forall_lookup. intros i chunk Hi.
  eapply (read_chunks_bounds (S (length data))); [| |exact Hi]; [|lia].
  apply Nat.ltb_lt. by vm_compute.
Qed.

End Response.

Lemma serve_file_length_is_streamed_length_witness :
  (∃ response fs' chunks,
     serve_file (H := no_codecs) (fun _ => None) "downloads/clip.mp4"
       "My:Video?.mp4"
       (Some ["downloads/clip_video.mp4"; "downloads/clip_audio.mp4"]) true
       Samples.removable_files
     = Return response
     ∧ streaming_content response Samples.removable_files
       = (fs', Return chunks)
     ∧ mjoin chunks = [Byte.x01; Byte.x02; Byte.x03]
     ∧ content_length response = length (mjoin chunks)
     ∧ Forall (fun chunk => (length chunk ≤ default_chunk_size)%nat) chunks
     ∧ x_filename response = @clean_filename no_codecs "My:Video?.mp4" true)
  ∧ serve_file (H := no_codecs) (fun _ => None) "downloads/clip.mp4"
      (String "a" (String Re.line_feed "b")) None true Samples.removable_files
    = Raise (Exception "BadHeaderError").
Proof.
  split.
  - exact (proj1 (serve_file_length_is_streamed_length (H := no_codecs)
                    (fun _ => None) "downloads/clip.mp4" "My:Video?.mp4"
                    (Some ["downloads/clip_video.mp4";
                           "downloads/clip_audio.mp4"]) true
                    Samples.removable_files [Byte.x01; Byte.x02; Byte.x03]
                    eq_refl eq_refl) eq_refl).
  - exact (proj2 (serve_file_length_is_streamed_length (H := no_codecs)
                    (fun _ => None) "downloads/clip.mp4"
                    (String "a" (String Re.line_feed "b")) None true
                    Samples.removable_files [Byte.x01; Byte.x02; Byte.x03]
                    eq_refl eq_refl) eq_refl).
Defined.

End ServerSpec.

(** ** The metadata resolver and the quality resolver, further *)

Module ResolverSpec.

Import Text TextFacts Views Downloader DownloaderSpec.

(** *** The URL check and the classifier *)

(** X8. The check accepts a URL exactly when it has the shape of the
    pattern from its first character on: an optional scheme, an optional
    "www.", "youtube" or "youtu", a dot, "com" or "be", a slash and one
    more character that is not a line feed; what follows is free. *)
Theorem is_youtube_url_accepts_exactly_the_shape (url : string) :
  is_youtube_url url = true ↔ youtube_shape url.
Proof. apply is_youtube_url_shape. Qed.

Lemma contains_intro (p before after : string) :
  contains p (before +:+ p +:+ after) = true.
Proof. apply contains_spec. eauto. Qed.

(** X9. A URL made of an optional scheme, an optional "www.", one of the
    hosts "youtube.com" and "youtu.be", a slash and a rest whose first
    character is not a line feed passes the check of the downloader, and
    the classifier takes it for a youtube or a youtube shorts URL: on these
    hosts the two agree. *)
Theorem youtube_hosts_pass_check_and_classifier
  (scheme www host : string) (c : ascii) (rest : string) :
  scheme ∈ [""; "http://"; "https://"] →
  www ∈ [""; "www."] →
  host ∈ ["youtube.com"; "youtu.be"] →
  c ≠ Re.line_feed →
  is_youtube_url (scheme +:+ www +:+ host +:+ "/" +:+ String c rest) = true
  ∧ (get_platform (scheme +:+ www +:+ host +:+ "/" +:+ String c rest)
     = youtube
     ∨ get_platform (scheme +:+ www +:+ host +:+ "/" +:+ String c rest)
       = youtube_shorts).
Proof.
  intros Hs Hw Hh Hc. split.
  - apply is_youtube_url_shape.
    rewrite !elem_of_cons, elem_of_nil in Hh.
    destruct Hh as [->|[->|[]]].
    + exists scheme, www, "youtube", "com", c, rest.
      split_and!; [done | done | by left | by left | done | reflexivity].
    + exists scheme, www, "youtu", "be", c, rest.
      split_and!;
        [done | done | by right; left | by right; left | done | reflexivity].
  - unfold get_platform.
    destruct (contains "youtube.com/shorts/" _); [by right | left].
    assert (contains host (scheme +:+ www +:+ host +:+ "/" +:+ String c rest)
            = true) as Hin.
    { rewrite <- (append_assoc scheme www). apply contains_intro. }
    rewrite !elem_of_cons, elem_of_nil in Hh.
    destruct Hh as [->|[->|[]]]; rewrite Hin; by rewrite ?orb_true_r.
Qed.

Lemma youtube_hosts_pass_check_and_classifier_witness :
  is_youtube_url "https://youtu.be/aqz-KE-bpKQ" = true
  ∧ (get_platform "https://youtu.be/aqz-KE-bpKQ" = youtube
     ∨ get_platform "https://youtu.be/aqz-KE-bpKQ" = youtube_shorts).
Proof.
  apply (youtube_hosts_pass_check_and_classifier
           "https://" "" "youtu.be" "a" "qz-KE-bpKQ").
  - apply (bool_decide_unpack _). vm_compute. exact I.
  - apply (bool_decide_unpack _). vm_compute. exact I.
  - apply (bool_decide_unpack _). vm_compute. exact I.
  - discriminate.
Defined.

(** *** The quality map *)

Lemma add_formats_app (fs1 fs2 : list format) (acc : gmap string FormatRef) :
  add_formats (fs1 ++ fs2) acc
  = bind (add_formats fs1 acc) (add_formats fs2).
Proof.
  revert acc. induction fs1 as [|f fs1 IH]; intros acc; simpl; [done |].
  destruct (add_format acc f); simpl; [apply IH | done].
Qed.

(** Formats that do not carry a label leave its entry alone. *)
Lemma add_formats_preserve (fs : list format) (acc m : gmap string FormatRef)
  (label : string) :
  add_formats fs acc = Return m →
  (∀ g, g ∈ fs → ¬ labelled g label) →
  m !! label = acc !! label.
Proof.
  revert acc. induction fs as [|f fs IH]; intros acc; simpl.
  - by intros [= <-] _.
  - destruct (add_format acc f) as [acc'|] eqn:Hf; [|done]. simpl.
    intros Hm Hno.
    assert (m !! label = acc' !! label) as ->.
    { apply (IH acc' Hm). intros g Hg. apply Hno. by right. }
    apply add_format_inv in Hf as [[-> _]|(l & codec & Hl & Hne & _ & ->)];
      [done |].
    apply lookup_insert_ne. intros ->. apply (Hno f); [by left |].
    by apply resolution_of_labelled.
Qed.

Lemma add_format_raises (acc : gmap string FormatRef) (f : format) :
  (∃ e, add_format acc f = Raise e)
  ↔ (∃ label, labelled f label) ∧ acodec f = Null.
Proof.
  unfold add_format. split.
  - intros [e He]. destruct (resolution_of f) as [[|c r]|] eqn:Hr; [done | | done].
    destruct (acodec f) as [| |codec] eqn:Ha; simpl in He.
    + by destruct (contains "audio" "none").
    + split; [|done]. exists (String c r). by apply resolution_of_labelled.
    + by destruct (contains "audio" codec).
  - intros [[label [Hr Hne]%resolution_of_labelled] Ha]. rewrite Hr, Ha.
    destruct label; [done |]. simpl. by eexists.
Qed.

Lemma add_formats_raises (fs : list format) (acc : gmap string FormatRef) :
  (∃ e, add_formats fs acc = Raise e)
  ↔ ∃ f, f ∈ fs ∧ (∃ label, labelled f label) ∧ acodec f = Null.
Proof.
  revert acc. induction fs as [|f fs IH]; intros acc; simpl.
  - split; [by intros [e ?] | intros (f & Hf & _); by apply elem_of_nil in Hf].
  - destruct (add_format acc f) as [acc'|e] eqn:Hf; simpl.
    + rewrite IH. split.
      * intros (g & Hg & Hrest). exists g. split; [by right | done].
      * intros (g & Hg & Hl & Ha).
        apply elem_of_cons in Hg as [->|Hg]; [|by exists g].
        destruct (proj2 (add_format_raises acc f) (conj Hl Ha)) as [e He].
        congruence.
    + split; [|by eexists]. intros _. exists f. split; [by left |].
      apply (add_format_raises acc). by eexists.
Qed.

Section MetadataFacts.
Context {World : Type} `{Engine World}.

(** X10. When several formats of the list carry the same label, the
    entry of the map under that label has the id of the last of them. *)
Theorem get_video_info_last_format_wins (url : string) (st st' : state World)
  (vi : video_info) (av : gmap string FormatRef) (full : info)
  (earlier later : list format) (f : format) (label : string) :
  get_video_info url st = (Some (vi, av, full), st') →
  formats full = (earlier ++ f :: later)%list →
  labelled f label →
  (∀ g, g ∈ later → ¬ labelled g label) →
  ∃ r, av !! label = Some r ∧ ref_id r = format_id f.
Proof.
  intros (Hav & _)%get_video_info_inv Hfs Hl Hlater.
  rewrite Hfs, add_formats_app in Hav.
  destruct (add_formats earlier ∅) as [m1|]; [|done]. simpl in Hav.
  destruct (add_format m1 f) as [m2|] eqn:Hf; [|done]. simpl in Hav.
  rewrite (add_formats_preserve _ _ _ _ Hav Hlater).
  apply add_format_inv in Hf as [[_ Hno]|(l & codec & Hr & Hne & _ & ->)].
  - by apply resolution_of_labelled, Hno in Hl.
  - apply resolution_of_labelled in Hl as [Hl _].
    assert (l = label) as -> by congruence.
    eexists. by rewrite lookup_insert_eq.
Qed.

(** X11. The metadata query returns nothing in exactly three cases: the
    engine raises, the engine returns no info, or some format of the list
    that carries a label has [None] as its codec field; one such format
    is enough to lose the metadata of the whole video. *)
Theorem get_video_info_none_iff (url : string) (st : state World) :
  (get_video_info url st).1 = None
  ↔ (∃ msg, (extract_info url (world st)).1 = ExtractRaises msg)
    ∨ (extract_info url (world st)).1 = ExtractNone
    ∨ ∃ i f, (extract_info url (world st)).1 = ExtractInfo i
             ∧ f ∈ formats i
             ∧ (∃ label, labelled f label)
             ∧ acodec f = Null.
Proof.
  unfold get_video_info, mbind, perform, ret.
  destruct (extract_info url (world st)) as [[msg| |i] w]; simpl.
  - split; [intros _; left; by eexists | done].
  - split; [intros _; right; by left | done].
  - destruct (add_formats (formats i) ∅) as [m|e] eqn:Hm; simpl.
    + split; [done |].
      intros [[msg ?]|[?|(j & f & [= <-] & Hrest)]]; [done | done |].
      destruct (proj2 (add_formats_raises (formats i) ∅)) as [e He];
        [by exists f | congruence].
    + split; [|done]. intros _. right. right.
      destruct (proj1 (add_formats_raises (formats i) ∅)) as (f & Hf);
        [by eexists |].
      by exists i, f.
Qed.

(** X12. Every entry of the map comes from the list: its key is a label
    of some format of the list and its id is the id of that format. *)
Theorem get_video_info_entries_from_formats (url : string)
  (st st' : state World) (vi : video_info) (av : gmap string FormatRef)
  (full : info) (label : string) (r : FormatRef) :
  get_video_info url st = (Some (vi, av, full), st') →
  av !! label = Some r →
  ∃ f, f ∈ formats full ∧ labelled f label ∧ ref_id r = format_id f.
Proof.
  intros (Hav & _)%get_video_info_inv Hr.
  destruct (add_formats_entry _ _ _ _ _ Hav Hr)
    as [Hempty|(f & codec & Hf & Hl & _ & ->)].
  - by rewrite lookup_empty in Hempty.
  - by exists f.
Qed.

End MetadataFacts.

Lemma get_video_info_last_format_wins_witness :
  ∃ r,
    ({["720p" := {| ref_id := "136"; ref_type := video |}]}
       : gmap string FormatRef) !! "720p" = Some r
    ∧ ref_id r = "136".
Proof.
  apply (get_video_info_last_format_wins
           (H := Samples.recording_engine
                   (Samples.with_formats [Samples.f22; Samples.f136]))
           Samples.watch_url Samples.start _ _ _ _
           [Samples.f22] [] Samples.f136 "720p" eq_refl eq_refl).
  - left. exists 720. split; [reflexivity |].
    apply (bool_decide_unpack _). vm_compute. exact I.
  - intros g Hg. by apply elem_of_nil in Hg.
Defined.

Lemma get_video_info_entries_from_formats_witness :
  ∃ f, f ∈ [Samples.f22; Samples.f136] ∧ labelled f "720p"
       ∧ ref_id {| ref_id := "136"; ref_type := video |} = format_id f.
Proof.
  exact (get_video_info_entries_from_formats
           (H := Samples.recording_engine
                   (Samples.with_formats [Samples.f22; Samples.f136]))
           Samples.watch_url Samples.start _ _ _ _ "720p"
           {| ref_id := "136"; ref_type := video |} eq_refl eq_refl).
Defined.

End ResolverSpec.

(** ** The quality resolver: what "best" and "worst" pick *)

Module MatchSpec.

Import Text TextFacts Views Downloader DownloaderSpec.

Lemma find_first {A : Type} (p : A → bool) (l : list A) (x : A) :
  List.find p l = Some x →
  ∃ l1 l2, l = (l1 ++ x :: l2)%list ∧ p x = true ∧ ∀ y, y ∈ l1 → p y = false.
Proof.
  induction l as [|a l IH]; simpl; [done |].
  destruct (p a) eqn:Ha.
  - intros [= <-]. exists [], l. split_and!; [done | done |].
    intros y Hy. by apply elem_of_nil in Hy.
  - intros (l1 & l2 & -> & Hx & Hl1)%IH. exists (a :: l1), l2.
    split_and!; [done | done |].
    intros y [->|Hy]%elem_of_cons; auto.
Qed.

Lemma find_nothing {A : Type} (p : A → bool) (l : list A) :
  List.find p l = None ↔ ∀ y, y ∈ l → p y = false.
Proof.
  induction l as [|a l IH]; simpl.
  - split; [intros _ y Hy; by apply elem_of_nil in Hy | done].
  - destruct (p a) eqn:Ha.
    + split; [done |]. intros Hall. rewrite (Hall a) in Ha by by left. done.
    + rewrite IH. split.
      * intros Hl y [->|Hy]%elem_of_cons; auto.
      * intros Hall y Hy. apply Hall. by right.
Qed.

Lemma match_best (available : gmap string FormatRef) :
  has_key "best" available = false →
  _find_best_quality_match "best" available
  = List.find (fun q => has_key q available) quality_preference.
Proof.
  intros Hk. unfold _find_best_quality_match.
  rewrite Hk, closest_loop_best.
  by destruct (List.find _ quality_preference).
Qed.

Lemma match_worst (available : gmap string FormatRef) :
  has_key "worst" available = false →
  _find_best_quality_match "worst" available
  = List.find (fun q => has_key q available) (reverse quality_preference).
Proof.
  intros Hk. unfold _find_best_quality_match.
  rewrite Hk, closest_loop_other by done. cbn [String.eqb].
  apply worst_loop_find.
Qed.

(** X13. When "best" is not itself a key, what the resolver returns
    for it is a label of the preference list that is in the map while no
    label above it in the list is; for "worst", likewise, no label below
    it is in the map. *)
Theorem best_and_worst_are_the_extremes
  (available : gmap string FormatRef) (selected : string) :
  (has_key "best" available = false →
   _find_best_quality_match "best" available = Some selected →
   ∃ above below,
     quality_preference = (above ++ selected :: below)%list
     ∧ has_key selected available = true
     ∧ ∀ q, q ∈ above → has_key q available = false)
  ∧ (has_key "worst" available = false →
     _find_best_quality_match "worst" available = Some selected →
     ∃ above below,
       quality_preference = (above ++ selected :: below)%list
       ∧ has_key selected available = true
       ∧ ∀ q, q ∈ below → has_key q available = false).
Proof.
  split; intros Hk Hm.
  - rewrite (match_best _ Hk) in Hm. by apply find_first in Hm.
  - rewrite (match_worst _ Hk) in Hm.
    apply find_first in Hm as (l1 & l2 & Hrev & Hsel & Hl1).
    exists (reverse l2), (reverse l1). split_and!; [| done |].
    + rewrite <- (reverse_involutive quality_preference), Hrev.
      by rewrite reverse_app, reverse_cons, <- app_assoc.
    + intros q Hq. apply Hl1. by apply elem_of_reverse.
Qed.

Lemma best_and_worst_are_the_extremes_witness :
  (∃ above below,
     quality_preference = (above ++ "720p" :: below)%list
     ∧ has_key "720p"
         (<["720p" := {| ref_id := "136"; ref_type := video |}]>
          (<["360p" := {| ref_id := "134"; ref_type := video |}]> ∅)) = true
     ∧ ∀ q, q ∈ above →
            has_key q
              (<["720p" := {| ref_id := "136"; ref_type := video |}]>
               (<["360p" := {| ref_id := "134"; ref_type := video |}]> ∅))
            = false)
  ∧ (∃ above below,
       quality_preference = (above ++ "360p" :: below)%list
       ∧ has_key "360p"
           (<["720p" := {| ref_id := "136"; ref_type := video |}]>
            (<["360p" := {| ref_id := "134"; ref_type := video |}]> ∅)) = true
       ∧ ∀ q, q ∈ below →
              has_key q
                (<["720p" := {| ref_id := "136"; ref_type := video |}]>
                 (<["360p" := {| ref_id := "134"; ref_type := video |}]> ∅))
              = false).
Proof.
  split.
  - exact (proj1 (best_and_worst_are_the_extremes
                    (<["720p" := {| ref_id := "136"; ref_type := video |}]>
                     (<["360p" := {| ref_id := "134"; ref_type := video |}]> ∅))
                    "720p") eq_refl eq_refl).
  - exact (proj2 (best_and_worst_are_the_extremes
                    (<["720p" := {| ref_id := "136"; ref_type := video |}]>
                     (<["360p" := {| ref_id := "134"; ref_type := video |}]> ∅))
                    "360p") eq_refl eq_refl).
Defined.

(** X14. The resolver finds nothing exactly when the requested string is
    not a key and, if it is "best" or "worst", no label of the preference
    list is a key either: on a map that only has other labels, "best" and
    "worst" find nothing although the map is not empty. *)
Theorem find_best_quality_match_none_iff (requested : string)
  (available : gmap string FormatRef) :
  _find_best_quality_match requested available = None
  ↔ has_key requested available = false
    ∧ (requested = "best" ∨ requested = "worst" →
       ∀ q, q ∈ quality_preference → has_key q available = false).
Proof.
  destruct (has_key requested available) eqn:Hk.
  { unfold _find_best_quality_match. rewrite Hk. split; [done | by intros []]. }
  destruct (String.eqb requested "best") eqn:Hb.
  - apply String.eqb_eq in Hb as ->. rewrite (match_best _ Hk), find_nothing.
    split; [by intros Hall | intros [_ Hall]; by apply Hall; left].
  - destruct (String.eqb requested "worst") eqn:Hw.
    + apply String.eqb_eq in Hw as ->. rewrite (match_worst _ Hk), find_nothing.
      split.
      * intros Hall. split; [done |]. intros _ q Hq. apply Hall.
        by apply elem_of_reverse.
      * intros [_ Hall] q Hq. apply Hall; [by right |].
        by apply elem_of_reverse in Hq.
    + unfold _find_best_quality_match.
      rewrite Hk, (closest_loop_other _ _ _ Hb), Hw.
      split; [|done]. intros _. split; [done |].
      apply String.eqb_neq in Hb, Hw. by intros [?|?].
Qed.

End MatchSpec.

(** ** The orchestrator: the merge branch, failures, output files *)

Module OrchestratorSpec.

Import Text TextFacts Views Downloader DownloaderSpec.

(** *** The best audio stream *)

Lemma max_from_spec (best : format) (candidates : list format) :
  max_from best candidates ∈ best :: candidates
  ∧ ∀ f, f ∈ best :: candidates →
         (abr_key f <= abr_key (max_from best candidates))%Q.
Proof.
  revert best. induction candidates as [|g rest IH]; intros best; simpl.
  - split; [by left |]. intros f [->|Hf]%elem_of_cons; [apply Qle_refl |].
    by apply elem_of_nil in Hf.
  - destruct (Qle_bool (abr_key g) (abr_key best)) eqn:Hg.
    + apply Qle_bool_iff in Hg. destruct (IH best) as [Hin Hmax]. split.
      * apply elem_of_cons in Hin as [->|Hin]; [by left | by right; right].
      * intros f [->|[->|Hf]%elem_of_cons]%elem_of_cons.
        -- apply Hmax. by left.
        -- eapply Qle_trans; [exact Hg | apply Hmax; by left].
        -- apply Hmax. by right.
    + assert (abr_key best <= abr_key g)%Q as Hlt.
      { apply Qlt_le_weak, Qnot_le_lt. intros Hle.
        apply Qle_bool_iff in Hle. congruence. }
      destruct (IH g) as [Hin Hmax]. split; [by right |].
      intros f [->|Hf]%elem_of_cons; [|by apply Hmax].
      eapply Qle_trans; [exact Hlt | apply Hmax; by left].
Qed.

Lemma elem_of_filter_list (p : format → bool) (l : list format) (f : format) :
  f ∈ List.filter p l ↔ f ∈ l ∧ p f = true.
Proof. rewrite !list_elem_of_In. apply List.filter_In. Qed.

(** X15. The audio stream chosen for a merge is a format of the list
    that has a codec other than "none" and a bitrate, and no such format
    of the list has a greater bitrate. *)
Theorem best_audio_of_is_a_maximum (fs : list format) (best_audio : format) :
  best_audio_of fs = Some best_audio →
  best_audio ∈ fs
  ∧ audio_candidate best_audio = true
  ∧ ∀ f, f ∈ fs → audio_candidate f = true →
         (abr_key f <= abr_key best_audio)%Q.
Proof.
  unfold best_audio_of.
  destruct (List.filter audio_candidate fs) as [|g rest] eqn:Hc; [done |].
  intros [= <-]. destruct (max_from_spec g rest) as [Hin Hmax].
  rewrite <- Hc in Hin, Hmax.
  apply elem_of_filter_list in Hin as [Hin Hcand]. split_and!; [done | done |].
  intros f Hf Hfc. apply Hmax. by apply elem_of_filter_list.
Qed.

Lemma best_audio_of_is_a_maximum_witness :
  Samples.f251 ∈ [Samples.f137; Samples.f140; Samples.f251]
  ∧ audio_candidate Samples.f251 = true
  ∧ ∀ f, f ∈ [Samples.f137; Samples.f140; Samples.f251] →
         audio_candidate f = true →
         (abr_key f <= abr_key Samples.f251)%Q.
Proof.
  exact (best_audio_of_is_a_maximum
           [Samples.f137; Samples.f140; Samples.f251] Samples.f251 eq_refl).
Defined.

(** *** The output files *)

Lemma in_folder_intro (title suffix : string) :
  all_chars (fun c => negb (invalid_char c)) title = true →
  all_chars (fun c => negb (invalid_char c)) suffix = true →
  in_folder (in_download_folder (title +:+ suffix)).
Proof.
  intros Ht Hs. exists (title +:+ suffix). split; [done |].
  by rewrite NamesSpec.all_chars_app, Ht, Hs.
Qed.

Lemma sanitize_filename_valid (t : string) :
  all_chars (fun c => negb (invalid_char c)) (sanitize_filename t) = true.
Proof.
  unfold sanitize_filename. by apply NamesSpec.all_chars_strip,
    NamesSpec.all_chars_filter.
Qed.

Section Branches.
Context {World : Type} `{Engine World}.

Lemma download_progressive_calls (url title : string) (format_info : FormatRef)
  (st : state World) :
  calls (_download_progressive url format_info title st).2
  = (calls st
     ++ [CallDownload (ref_id format_info)
           (in_download_folder (title +:+ ".mp4")) url])%list.
Proof.
  unfold _download_progressive, mbind, perform, ret.
  destruct (ydl_download _ _ _ _) as [[msg|] w]; done.
Qed.

(** The calls of the merge branch: some first steps of the sequence
    video fetch, audio fetch, merge. *)
Lemma download_and_merge_calls (url title : string) (format_info : FormatRef)
  (full : info) (st : state World) :
  ∃ new,
    calls (_download_and_merge url format_info title full st).2
    = (calls st ++ new)%list
    ∧ ∃ audio_id,
        new `prefix_of`
          [CallDownload (ref_id format_info)
             (in_download_folder (title +:+ "_video.mp4")) url;
           CallDownload audio_id
             (in_download_folder (title +:+ "_audio.mp4")) url;
           CallMerge (in_download_folder (title +:+ "_video.mp4"))
             (in_download_folder (title +:+ "_audio.mp4"))
             (in_download_folder (title +:+ ".mp4"))].
Proof.
  unfold _download_and_merge, mbind, perform, ret.
  destruct (best_audio_of (formats full)) as [b|].
  2:{ exists []. split; [by rewrite app_nil_r |]. exists "".
      apply prefix_nil. }
  destruct (ydl_download (ref_id format_info) _ _ _) as [[msg|] w1].
  { eexists [_]. split; [done |]. exists (format_id b).
    by apply prefix_cons, prefix_nil. }
  cbn [world calls].
  destruct (ydl_download (format_id b) _ _ _) as [[msg|] w2].
  { eexists [_; _]. split; [by rewrite <- app_assoc |]. exists (format_id b).
    by apply prefix_cons, prefix_cons, prefix_nil. }
  cbn [world calls].
  destruct (ffmpeg_merge _ _ _ _) as [[msg|] w3];
    (eexists [_; _; _]; split; [by rewrite <- !app_assoc |];
     by exists (format_id b)).
Qed.

End Branches.

Section Orchestrations.
Context {World : Type} `{Engine World}.

Lemma get_video_info_one_call (url : string) (st : state World) :
  calls (get_video_info url st).2 = (calls st ++ [CallExtract url])%list.
Proof.
  unfold get_video_info, mbind, perform, ret.
  destruct (extract_info url (world st)) as [[msg| |i] w]; [done | done |].
  by destruct (add_formats (formats i) ∅).
Qed.

(** X16. Called with a URL and a quality that are strings,
    [download_video] raises in one case only: the engine reported a title
    that is [None], which [sanitize_filename] cannot take; the exception is
    a [TypeError]. The lookup of the selected quality never raises, since
    the resolver only returns keys of the map. A quality that is not a
    string is outside this statement. *)
Theorem download_video_raises_only_on_null_title
  (url quality : string) (st : state World) (e : exn) :
  (download_video url quality st).1 = Raise e →
  e = TypeError
  ∧ ∃ i, (extract_info url (world st)).1 = ExtractInfo i ∧ title i = Null.
Proof.
  unfold download_video, mbind, ret.
  destruct (is_youtube_url url); cbn [negb]; [|done].
  destruct (get_video_info url st) as [[[[vi av] full]|] st1] eqn:Hg; [|done].
  case_bool_decide; [done |].
  destruct (_find_best_quality_match quality av) as [[|c q]|] eqn:Hq;
    [done | | done].
  destruct (av !! String c q) as [format_info|] eqn:Hf.
  2:{ apply find_best_quality_match_key in Hq as [r Hr]. congruence. }
  destruct (vi_title vi) as [t|] eqn:Ht.
  - destruct (ref_type format_info).
    + by destruct (_download_progressive _ _ _ _).
    + by destruct (_download_and_merge _ _ _ _ _).
  - intros [= <-]. split; [done |].
    apply get_video_info_inv in Hg as (_ & -> & Hi & _).
    exists full. split; [done |]. simpl in Ht. by destruct (title full).
Qed.

(** X17. When the resolved entry is video-only, an audio stream can be
    chosen and the video fetch, the audio fetch and the merge succeed in
    that order, [download_video] returns a success for [<title>.mp4] whose
    [temp_files] are the video and the audio intermediates; the three
    calls are the only ones after the metadata query, and the audio fetch
    asks for the chosen stream. *)
Theorem download_video_merge_success
  (url quality : string) (st st1 : state World)
  (vi : video_info) (av : gmap string FormatRef) (full : info)
  (selected t : string) (format_info : FormatRef) (best_audio : format)
  (w1 w2 w3 : World) :
  is_youtube_url url = true →
  get_video_info url st = (Some (vi, av, full), st1) →
  _find_best_quality_match quality av = Some selected →
  av !! selected = Some format_info →
  ref_type format_info = video →
  vi_title vi = Some t →
  best_audio_of (formats full) = Some best_audio →
  ydl_download (ref_id format_info)
    ("downloads/" +:+ sanitize_filename t +:+ "_video.mp4") url (world st1)
  = (None, w1) →
  ydl_download (format_id best_audio)
    ("downloads/" +:+ sanitize_filename t +:+ "_audio.mp4") url w1
  = (None, w2) →
  ffmpeg_merge ("downloads/" +:+ sanitize_filename t +:+ "_video.mp4")
    ("downloads/" +:+ sanitize_filename t +:+ "_audio.mp4")
    ("downloads/" +:+ sanitize_filename t +:+ ".mp4") w2
  = (None, w3) →
  ∃ result,
    download_video url quality st
    = (Return result,
       {| world := w3;
          calls :=
            calls st1
            ++ [CallDownload (ref_id format_info)
                  ("downloads/" +:+ sanitize_filename t +:+ "_video.mp4") url;
                CallDownload (format_id best_audio)
                  ("downloads/" +:+ sanitize_filename t +:+ "_audio.mp4") url;
                CallMerge
                  ("downloads/" +:+ sanitize_filename t +:+ "_video.mp4")
                  ("downloads/" +:+ sanitize_filename t +:+ "_audio.mp4")
                  ("downloads/" +:+ sanitize_filename t +:+ ".mp4")] |})
    ∧ result
      = Success ("downloads/" +:+ sanitize_filename t +:+ ".mp4")
          (sanitize_filename t +:+ ".mp4")
          (Some ["downloads/" +:+ sanitize_filename t +:+ "_video.mp4";
                 "downloads/" +:+ sanitize_filename t +:+ "_audio.mp4"])
    ∧ get_temp_files result
      = ["downloads/" +:+ sanitize_filename t +:+ "_video.mp4";
         "downloads/" +:+ sanitize_filename t +:+ "_audio.mp4"].
Proof.
  intros Hu Hg Hq Hf Hk Ht Hb Hv Ha Hm. eexists. split; [|done].
  rewrite (download_video_dispatch _ _ _ _ _ _ _ _ _ _ Hu Hg Hq Hf Ht), Hk.
  unfold _download_and_merge, mbind, perform, ret. rewrite Hb.
  change (in_download_folder (sanitize_filename t +:+ "_video.mp4"))
    with ("downloads/" +:+ sanitize_filename t +:+ "_video.mp4").
  change (in_download_folder (sanitize_filename t +:+ "_audio.mp4"))
    with ("downloads/" +:+ sanitize_filename t +:+ "_audio.mp4").
  change (in_download_folder (sanitize_filename t +:+ ".mp4"))
    with ("downloads/" +:+ sanitize_filename t +:+ ".mp4").
  rewrite Hv. cbn [world calls]. rewrite Ha. cbn [world calls]. rewrite Hm.
  cbn [world calls]. by rewrite <- !app_assoc.
Qed.

(** X18. In the merge branch a step that raises ends the branch: the
    result is the failure with the text of that exception, no later step
    is called, and the result lists no temporary file, although the
    intermediates fetched so far were written. *)
Theorem download_and_merge_stops_at_first_failure
  (url title : string) (format_info : FormatRef) (full : info)
  (st : state World) (best_audio : format) (msg : string) :
  best_audio_of (formats full) = Some best_audio →
  (∀ w1,
     ydl_download (ref_id format_info)
       (in_download_folder (title +:+ "_video.mp4")) url (world st)
     = (Some msg, w1) →
     _download_and_merge url format_info title full st
     = (Failure msg,
        {| world := w1;
           calls := calls st
                    ++ [CallDownload (ref_id format_info)
                          (in_download_folder (title +:+ "_video.mp4"))
                          url] |}))
  ∧ (∀ w1 w2,
       ydl_download (ref_id format_info)
         (in_download_folder (title +:+ "_video.mp4")) url (world st)
       = (None, w1) →
       ydl_download (format_id best_audio)
         (in_download_folder (title +:+ "_audio.mp4")) url w1
       = (Some msg, w2) →
       _download_and_merge url format_info title full st
       = (Failure msg,
          {| world := w2;
             calls := calls st
                      ++ [CallDownload (ref_id format_info)
                            (in_download_folder (title +:+ "_video.mp4")) url;
                          CallDownload (format_id best_audio)
                            (in_download_folder (title +:+ "_audio.mp4"))
                            url] |}))
  ∧ (∀ w1 w2 w3,
       ydl_download (ref_id format_info)
         (in_download_folder (title +:+ "_video.mp4")) url (world st)
       = (None, w1) →
       ydl_download (format_id best_audio)
         (in_download_folder (title +:+ "_audio.mp4")) url w1
       = (None, w2) →
       ffmpeg_merge (in_download_folder (title +:+ "_video.mp4"))
         (in_download_folder (title +:+ "_audio.mp4"))
         (in_download_folder (title +:+ ".mp4")) w2
       = (Some msg, w3) →
       _download_and_merge url format_info title full st
       = (Failure msg,
          {| world := w3;
             calls := calls st
                      ++ [CallDownload (ref_id format_info)
                            (in_download_folder (title +:+ "_video.mp4")) url;
                          CallDownload (format_id best_audio)
                            (in_download_folder (title +:+ "_audio.mp4")) url;
                          CallMerge
                            (in_download_folder (title +:+ "_video.mp4"))
                            (in_download_folder (title +:+ "_audio.mp4"))
                            (in_download_folder (title +:+ ".mp4"))] |})).
Proof.
  intros Hb. unfold _download_and_merge, mbind, perform, ret. rewrite Hb.
  split_and!.
  - intros w1 Hv. by rewrite Hv.
  - intros w1 w2 Hv Ha. rewrite Hv. cbn [world calls]. rewrite Ha.
    cbn [world calls]. by rewrite <- !app_assoc.
  - intros w1 w2 w3 Hv Ha Hm. rewrite Hv. cbn [world calls]. rewrite Ha.
    cbn [world calls]. rewrite Hm. cbn [world calls]. by rewrite <- !app_assoc.
Qed.

(** X19. Whatever the URL, the quality and the services, every file
    [download_video] asks a service to write is a file of the download
    folder itself: its path is "downloads/" and a name that holds no slash,
    no backslash and none of the other characters the sanitizer removes. *)
Theorem download_video_writes_only_in_folder
  (url quality : string) (st : state World) :
  ∃ new,
    calls (download_video url quality st).2 = (calls st ++ new)%list
    ∧ Forall writes_in_folder new.
Proof.
  unfold download_video, mbind, ret.
  destruct (is_youtube_url url); cbn [negb].
  2:{ exists []. split; [by rewrite app_nil_r | done]. }
  pose proof (get_video_info_one_call url st) as Hcalls.
  destruct (get_video_info url st) as [r st1]. simpl in Hcalls.
  assert (∃ new, calls st1 = (calls st ++ new)%list
                 ∧ Forall writes_in_folder new) as Hmeta.
  { exists [CallExtract url]. split; [done |]. by repeat constructor. }
  destruct r as [[[vi av] full]|]; [|done].
  case_bool_decide; [done |].
  destruct (_find_best_quality_match quality av) as [[|c q]|]; [done | | done].
  destruct (av !! String c q) as [format_info|]; [|done].
  destruct (vi_title vi) as [t|]; [|done].
  pose proof (sanitize_filename_valid t) as Ht.
  destruct (ref_type format_info).
  - pose proof (download_progressive_calls url (sanitize_filename t)
                  format_info st1) as Hp.
    destruct (_download_progressive _ _ _ _) as [d st2]. simpl in Hp |- *.
    eexists (_ :: _ :: []). split; [by rewrite Hp, Hcalls, <- app_assoc |].
    repeat constructor. by apply in_folder_intro.
  - destruct (download_and_merge_calls url (sanitize_filename t) format_info
                full st1) as (new & Hnew & audio_id & [rest Hrest]).
    destruct (_download_and_merge _ _ _ _ _) as [d st2]. simpl in Hnew |- *.
    exists (CallExtract url :: new).
    split; [by rewrite Hnew, Hcalls, <- app_assoc |].
    constructor; [done |].
    assert (Forall writes_in_folder (new ++ rest)) as Hall.
    { rewrite <- Hrest. repeat constructor; by apply in_folder_intro. }
    by apply Forall_app in Hall as [? _].
Qed.

(** X20. A request that cannot be resolved fails before any fetch, in
    the state the metadata query left. When the query returned nothing or
    an empty map, the message is "No available formats found!" in both
    cases; when the resolver finds nothing, the message names the requested
    quality. *)
Theorem download_video_unresolved_fails_before_fetch
  (url quality : string) (st st1 : state World)
  (r : option (video_info * gmap string FormatRef * info)) :
  is_youtube_url url = true →
  get_video_info url st = (r, st1) →
  ((r = None ∨ ∃ vi full, r = Some (vi, ∅, full)) →
   download_video url quality st
   = (Return (Failure "No available formats found!"), st1))
  ∧ (∀ vi av full,
       r = Some (vi, av, full) →
       av ≠ ∅ →
       _find_best_quality_match quality av = None →
       download_video url quality st
       = (Return (Failure ("Quality '" +:+ quality +:+ "' not available!")),
          st1)).
Proof.
  intros Hu Hg. unfold download_video, mbind, ret. rewrite Hu.
  cbn [negb]. rewrite Hg. split.
  - intros [->|(vi & full & ->)]; [done |].
    by rewrite bool_decide_eq_true_2.
  - intros vi av full -> Hne Hq. rewrite bool_decide_eq_false_2 by done.
    by rewrite Hq.
Qed.

End Orchestrations.

Lemma download_video_raises_only_on_null_title_witness :
  TypeError = TypeError
  ∧ ∃ i,
      (@extract_info _
         (Samples.recording_engine (Samples.untitled [Samples.f137]))
         Samples.watch_url (world Samples.start)).1 = ExtractInfo i
      ∧ title i = Null.
Proof.
  exact (download_video_raises_only_on_null_title
           (H := Samples.recording_engine (Samples.untitled [Samples.f137]))
           Samples.watch_url "1080p" Samples.start TypeError eq_refl).
Defined.

Lemma download_video_merge_success_witness :
  ∃ result,
    download_video
      (H := Samples.recording_engine
              (Samples.with_formats
                 [Samples.f137; Samples.f140; Samples.f251]))
      Samples.watch_url "1080p" Samples.start
    = (Return result,
       {| world := ["downloads/Big Buck Bunny 60fps_video.mp4";
                    "downloads/Big Buck Bunny 60fps_audio.mp4";
                    "downloads/Big Buck Bunny 60fps.mp4"];
          calls :=
            [CallExtract Samples.watch_url;
             CallDownload "137" "downloads/Big Buck Bunny 60fps_video.mp4"
               Samples.watch_url;
             CallDownload "251" "downloads/Big Buck Bunny 60fps_audio.mp4"
               Samples.watch_url;
             CallMerge "downloads/Big Buck Bunny 60fps_video.mp4"
               "downloads/Big Buck Bunny 60fps_audio.mp4"
               "downloads/Big Buck Bunny 60fps.mp4"] |})
    ∧ result
      = Success "downloads/Big Buck Bunny 60fps.mp4" "Big Buck Bunny 60fps.mp4"
          (Some ["downloads/Big Buck Bunny 60fps_video.mp4";
                 "downloads/Big Buck Bunny 60fps_audio.mp4"])
    ∧ get_temp_files result
      = ["downloads/Big Buck Bunny 60fps_video.mp4";
         "downloads/Big Buck Bunny 60fps_audio.mp4"].
Proof.
  exact (download_video_merge_success
           (H := Samples.recording_engine
                   (Samples.with_formats
                      [Samples.f137; Samples.f140; Samples.f251]))
           Samples.watch_url "1080p" Samples.start _ _ _ _ "1080p"
           "Big Buck Bunny: 60fps"
           {| ref_id := "137"; ref_type := video |} Samples.f251
           ["downloads/Big Buck Bunny 60fps_video.mp4"]
           ["downloads/Big Buck Bunny 60fps_video.mp4";
            "downloads/Big Buck Bunny 60fps_audio.mp4"]
           ["downloads/Big Buck Bunny 60fps_video.mp4";
            "downloads/Big Buck Bunny 60fps_audio.mp4";
            "downloads/Big Buck Bunny 60fps.mp4"]
           eq_refl eq_refl eq_refl eq_refl eq_refl eq_refl eq_refl eq_refl
           eq_refl eq_refl).
Defined.

Lemma download_and_merge_stops_at_first_failure_witness :
  _download_and_merge
    (H := Samples.failing_merge_engine
            (Samples.with_formats [Samples.f137; Samples.f140]))
    Samples.watch_url {| ref_id := "137"; ref_type := video |} "clip"
    (Samples.with_formats [Samples.f137; Samples.f140]) Samples.start
  = (Failure "ffmpeg returned non-zero exit status 1",
     {| world := ["downloads/clip_video.mp4"; "downloads/clip_audio.mp4"];
        calls :=
          [CallDownload "137" "downloads/clip_video.mp4" Samples.watch_url;
           CallDownload "140" "downloads/clip_audio.mp4" Samples.watch_url;
           CallMerge "downloads/clip_video.mp4" "downloads/clip_audio.mp4"
             "downloads/clip.mp4"] |}).
Proof.
  exact (proj2 (proj2
           (download_and_merge_stops_at_first_failure
              (H := Samples.failing_merge_engine
                      (Samples.with_formats [Samples.f137; Samples.f140]))
              Samples.watch_url "clip" {| ref_id := "137"; ref_type := video |}
              (Samples.with_formats [Samples.f137; Samples.f140])
              Samples.start Samples.f140
              "ffmpeg returned non-zero exit status 1" eq_refl))
           ["downloads/clip_video.mp4"]
           ["downloads/clip_video.mp4"; "downloads/clip_audio.mp4"]
           ["downloads/clip_video.mp4"; "downloads/clip_audio.mp4"]
           eq_refl eq_refl eq_refl).
Defined.

Lemma download_video_unresolved_fails_before_fetch_witness :
  download_video
    (H := Samples.recording_engine (Samples.with_formats [Samples.f140]))
    Samples.watch_url "best" Samples.start
  = (Return (Failure "Quality 'best' not available!"),
     {| world := []; calls := [CallExtract Samples.watch_url] |}).
Proof.
  refine (proj2 (download_video_unresolved_fails_before_fetch
                   (H := Samples.recording_engine
                           (Samples.with_formats [Samples.f140]))
                   Samples.watch_url "best" Samples.start _ _
                   eq_refl eq_refl) _ _ _ eq_refl _ eq_refl).
  intros Hempty.
  pose proof (f_equal (fun m : gmap string FormatRef => m !! "medium") Hempty)
    as Hl.
  vm_compute in Hl. discriminate Hl.
Defined.

End OrchestratorSpec.

(** ** Encoded names and trailing text *)

Module EncodedSpec.

Import Text TextFacts Views Downloader.





Section Marker.
Context `{Codecs}.



End Marker.


(** X22. The check of the URL looks at its beginning only: a URL that
    passes still passes with any text added at its end. *)
Theorem is_youtube_url_ignores_the_end (url more : string) :
  is_youtube_url url = true → is_youtube_url (url +:+ more) = true.
Proof.
  unfold is_youtube_url. rewrite !ReFacts.re_match_lang.
  intros (u & v & -> & Hu). exists u, (v +:+ more).
  split; [apply append_assoc | done].
Qed.

Lemma is_youtube_url_ignores_the_end_witness :
  is_youtube_url ("https://youtu.be/a" +:+ " and whatever follows") = true.
Proof.
  apply (is_youtube_url_ignores_the_end "https://youtu.be/a"
           " and whatever follows").
  reflexivity.
Defined.

End EncodedSpec.
